(** * Base58 and Base58Check (bitcoin/base58.py)

    A shallow embedding of [encode], [decode] and the [CBase58Data] class,
    following the Python 3 branch of the module ([bchr x = bytes([x])],
    [bord x = x], indexing a [bytes] object yields an integer).

    - [bytes] is [list byte]; [str] is [list ascii] (the module only ever
      builds strings out of ASCII characters, so a string and its utf8
      encoding coincide);
    - the unbounded non-negative integers of the conversion are [N]; the
      version number, which the caller supplies and may be negative, is [Z];
    - exceptions are the constructors of [exn]; a function that can raise
      returns a [result]. *)

From Stdlib Require Import Ascii String Strings.Byte.
From Stdlib Require Import List NArith ZArith Bool Lia.
Import ListNotations.

Local Open Scope N_scope.

(** ** Python values and exceptions *)

Definition str := list ascii.
Definition bytes := list byte.

(** A string literal of the source. *)
Definition lit (s : string) : str := list_ascii_of_string s.

Inductive exn : Set :=
| InvalidBase58Error      (* class InvalidBase58Error(Base58Error) *)
| Base58ChecksumError     (* class Base58ChecksumError(Base58Error) *)
| ValueError              (* builtin: int(), bytes([x]), from_bytes *)
| IndexError              (* builtin: indexing out of range *)
| BinasciiError.          (* binascii.Error: unhexlify *)

Inductive result (A : Type) : Type :=
| Ok (a : A)
| Raise (e : exn).
Arguments Ok {A} a.
Arguments Raise {A} e.

Definition bind {A B : Type} (m : result A) (k : A -> result B) : result B :=
  match m with
  | Ok a => k a
  | Raise e => Raise e
  end.

Notation "x <- m ;; k" := (bind m (fun x => k))
  (at level 61, m at next level, right associativity).

(** ** Sequences: slicing, indexing, comparison *)

Section Sequences.
Context {A : Type}.

(** A slice bound [i] of a sequence of length [len], as Python clamps it:
    a negative bound counts from the end, and both ends saturate. *)
Definition clamp (len : nat) (i : Z) : nat :=
  if (i <? 0)%Z
  then Z.to_nat (Z.max 0 (Z.of_nat len + i))
  else Nat.min (Z.to_nat i) len.

(** [l[lo:hi]], an omitted bound being [None]. *)
Definition slice (lo hi : option Z) (l : list A) : list A :=
  let len := length l in
  let a := match lo with None => O | Some i => clamp len i end in
  let b := match hi with None => len | Some j => clamp len j end in
  firstn (b - a) (skipn a l).

(** [l[i]] for a non-negative index. *)
Definition getitem (l : list A) (i : nat) : result A :=
  match nth_error l i with
  | Some x => Ok x
  | None => Raise IndexError
  end.

Variable eqb : A -> A -> bool.

Fixpoint list_eqb (l1 l2 : list A) : bool :=
  match l1, l2 with
  | [], [] => true
  | x :: r1, y :: r2 => eqb x y && list_eqb r1 r2
  | _, _ => false
  end.

(** [pad = 0; for c in l: if c == z: pad += 1 else: break] *)
Fixpoint count_pad (z : A) (l : list A) : nat :=
  match l with
  | [] => O
  | c :: r => if eqb c z then S (count_pad z r) else O
  end.
End Sequences.

(** [a in s] for a one-character [a]. *)
Definition str_contains (s : str) (c : ascii) : bool :=
  existsb (Ascii.eqb c) s.

(** [s.index(c)]: the position of the first occurrence. *)
Fixpoint str_index (s : str) (c : ascii) : result N :=
  match s with
  | [] => Raise ValueError
  | x :: r => if Ascii.eqb x c then Ok 0 else (i <- str_index r c ;; Ok (i + 1))
  end.

(** ** Integers and their digits *)

(** The digits of [n] in base [B], least significant first: the loop
    [while n > 0: n, r = divmod(n, B); emit r], cut off after [fuel] turns. *)
Fixpoint digits_le (B : N) (fuel : nat) (n : N) : list N :=
  match fuel with
  | O => []
  | S fuel' =>
      if 0 <? n then (n mod B) :: digits_le B fuel' (n / B) else []
  end.

(** The number of turns granted to a digit loop on [n]: its bit length. *)
Definition turns (n : N) : nat := N.to_nat (N.size n).

(** Most significant digit first. *)
Definition digits_be (B : N) (n : N) : list N :=
  rev (digits_le B (turns n) n).

(** The value of a digit sequence, most significant first, by Horner. *)
Definition horner (B : N) (ds : list N) (acc : N) : N :=
  fold_left (fun a d => a * B + d) ds acc.

(** ** Hexadecimal: binascii.hexlify / unhexlify, int(_, 16), '%x' % n *)

Definition hex_digits : str := lit "0123456789abcdef".

Definition hexchar (d : N) : ascii := nth (N.to_nat d) hex_digits "0"%char.

(** The value of a hexadecimal digit, in either case. *)
Definition hexval (c : ascii) : option N :=
  let k := N_of_ascii c in
  if (48 <=? k) && (k <=? 57) then Some (k - 48)
  else if (97 <=? k) && (k <=? 102) then Some (k - 87)
  else if (65 <=? k) && (k <=? 70) then Some (k - 55)
  else None.

(** [binascii.hexlify(b)]: two lower-case digits a byte. *)
Definition hexlify (b : bytes) : str :=
  flat_map (fun x => [hexchar (Byte.to_N x / 16); hexchar (Byte.to_N x mod 16)]) b.

Fixpoint int16_digits (s : str) (acc : N) : result N :=
  match s with
  | [] => Ok acc
  | c :: r =>
      match hexval c with
      | Some d => int16_digits r (acc * 16 + d)
      | None => Raise ValueError
      end
  end.

(** [int(s, 16)] on an unsigned literal: an optional [0x] prefix, then at
    least one digit. (Signs, blanks and underscores never reach it here.) *)
Definition int16 (s : str) : result N :=
  let body :=
    match s with
    | "0"%char :: "x"%char :: r => r
    | "0"%char :: "X"%char :: r => r
    | _ => s
    end in
  match body with
  | [] => Raise ValueError
  | _ => int16_digits body 0
  end.

(** ['%x' % n] for [n >= 0]: lower-case digits, no leading zero, ["0"] for 0. *)
Definition format_x (n : N) : str :=
  if n =? 0 then lit "0" else map hexchar (digits_be 16 n).

Definition byte_of_N (n : N) : byte :=
  match Byte.of_N n with
  | Some b => b
  | None => x00
  end.

(** [binascii.unhexlify(h)]: fails on an odd length or on a non-digit. *)
Fixpoint unhexlify (h : str) : result bytes :=
  match h with
  | [] => Ok []
  | [_] => Raise BinasciiError
  | a :: b :: r =>
      match hexval a, hexval b with
      | Some x, Some y => res <- unhexlify r ;; Ok (byte_of_N (x * 16 + y) :: res)
      | _, _ => Raise BinasciiError
      end
  end.

(** ** The codec *)

Definition b58_digits : str :=
  lit "123456789ABCDEFGHJKLMNPQRSTUVWXYZabcdefghijkmnopqrstuvwxyz".

(** [b58_digits[r]]; [r] is a remainder modulo 58, always in range. *)
Definition b58char (r : N) : ascii := nth (N.to_nat r) b58_digits "1"%char.

(** [while n > 0: n, r = divmod(n, 58); res.append(b58_digits[r])] *)
Fixpoint encode_loop (fuel : nat) (n : N) (res : str) : str :=
  match fuel with
  | O => res
  | S fuel' =>
      if 0 <? n then
        let (q, r) := N.div_eucl n 58 in
        encode_loop fuel' q (res ++ [b58char r])
      else res
  end.

Definition encode (b : bytes) : result str :=
  (* Convert big-endian bytes to integer *)
  n <- int16 (lit "0x0" ++ hexlify b) ;;
  (* Divide that integer into base58 *)
  let res := encode_loop (turns n) n [] in
  let res := rev res in
  (* Encode leading zeros as base58 zeros *)
  let czero := x00 in
  let pad := count_pad Byte.eqb czero b in
  Ok (repeat (b58char 0) pad ++ res).

(** [for c in s: n *= 58; if c not in b58_digits: raise ...;
     digit = b58_digits.index(c); n += digit] *)
Fixpoint decode_loop (s : str) (n : N) : result N :=
  match s with
  | [] => Ok n
  | c :: r =>
      let n := n * 58 in
      if negb (str_contains b58_digits c) then Raise InvalidBase58Error
      else digit <- str_index b58_digits c ;; decode_loop r (n + digit)
  end.

Definition decode (s : str) : result bytes :=
  match s with
  | [] => Ok []
  | _ =>
      (* Convert the string to an integer *)
      n <- decode_loop s 0 ;;
      (* Convert the integer to bytes *)
      let h := format_x n in
      let h := if Nat.odd (length h) then lit "0" ++ h else h in
      res <- unhexlify h ;;
      (* Add padding back. *)
      let pad := count_pad Ascii.eqb (b58char 0) (slice None (Some (-1)%Z) s) in
      Ok (repeat x00 pad ++ res)
  end.

(** ** repr of a string: the [%r] conversion *)

Definition squote : ascii := ascii_of_N 39.
Definition dquote : ascii := ascii_of_N 34.
Definition backslash : ascii := ascii_of_N 92.

(** The code points below 256 that [repr] copies as they are: the
    printable ASCII characters and the printable Latin-1 ones (not the
    no-break space 160, not the soft hyphen 173). *)
Definition printable (c : ascii) : bool :=
  let k := N_of_ascii c in
  ((32 <=? k) && (k <? 127)) || ((161 <=? k) && negb (k =? 173)).

(** One character inside the quotes. *)
Definition repr_char (quote c : ascii) : str :=
  let k := N_of_ascii c in
  if Ascii.eqb c quote || Ascii.eqb c backslash then [backslash; c]
  else if k =? 9 then lit "\t"
  else if k =? 10 then lit "\n"
  else if k =? 13 then lit "\r"
  else if printable c then [c]
  else backslash :: "x"%char :: [hexchar (k / 16); hexchar (k mod 16)].

(** [repr(s)]: single quotes, unless [s] has a single quote and no double
    quote; the quote in use and the backslash are escaped. *)
Definition repr_str (s : str) : str :=
  let quote :=
    if str_contains s squote && negb (str_contains s dquote)
    then dquote else squote in
  [quote] ++ flat_map (repr_char quote) s ++ [quote].

(** ** The checksummed envelope *)

Module CBase58Data.

(** An instance: the [bytes] it extends, and its [nVersion] attribute. *)
Record t : Set := Build { data : bytes; nVersion : Z }.

(** [bchr(x) = bytes([x])] *)
Definition bchr (x : Z) : result bytes :=
  if ((0 <=? x) && (x <=? 255))%Z then Ok [byte_of_N (Z.to_N x)]
  else Raise ValueError.

(** [bord(x) = x], on the integer that indexing a [bytes] yields. *)
Definition bord (x : byte) : Z := Z.of_N (Byte.to_N x).

Section WithHash.
(** [bitcoin.core.Hash], which this module imports. *)
Variable Hash : bytes -> bytes.

Definition __new__ (s : str) : result t :=
  k <- decode s ;;
  let verbyte := slice (Some 0%Z) (Some 1%Z) k in
  let data := slice (Some 1%Z) (Some (-4)%Z) k in
  let check0 := slice (Some (-4)%Z) None k in
  let check1 := slice None (Some 4%Z) (Hash (verbyte ++ data)) in
  if negb (list_eqb Byte.eqb check0 check1) then Raise Base58ChecksumError
  else
    v <- getitem verbyte 0 ;;
    Ok {| data := data; nVersion := bord v |}.

Definition from_bytes (data : bytes) (nVersion : Z) : result t :=
  if negb ((0 <=? nVersion) && (nVersion <=? 255))%Z then Raise ValueError
  else Ok {| data := data; nVersion := nVersion |}.

Definition to_bytes (self : t) : bytes := [] ++ data self.

Definition __str__ (self : t) : result str :=
  vs0 <- bchr (nVersion self) ;;
  let vs := vs0 ++ data self in
  let check := slice (Some 0%Z) (Some 4%Z) (Hash vs) in
  encode (vs ++ check).

(** ['%s(%r)' % (self.__class__.__name__, str(self))], on an instance of
    the class itself. *)
Definition __repr__ (self : t) : result str :=
  s <- __str__ self ;;
  Ok (lit "CBase58Data" ++ lit "(" ++ repr_str s ++ lit ")").
End WithHash.

End CBase58Data.

(** ** Notions the statements are phrased with *)

(** The integer-to-bytes step of [decode], on its own:
    [h = '%x' % n; if len(h) % 2: h = '0' + h; unhexlify(h)]. *)
Definition int_to_bytes (n : N) : result bytes :=
  let h := format_x n in
  let h := if Nat.odd (length h) then lit "0" ++ h else h in
  unhexlify h.

(** Hexadecimal digits taken two by two, as base-256 digits. *)
Fixpoint pair_up (ds : list N) : list N :=
  match ds with
  | a :: b :: r => (a * 16 + b) :: pair_up r
  | _ => ds
  end.

(** The big-endian unsigned integer a byte string denotes. *)
Definition be_value (b : bytes) : N := horner 256 (map Byte.to_N b) 0.

(** The big-endian byte string of [n] without any leading zero byte; by
    this definition the integer 0 has no bytes at all. *)
Definition minimal_be_bytes (n : N) : bytes := map byte_of_N (digits_be 256 n).

(** The digit value of an alphabet character (0 for any other character). *)
Definition b58_index (c : ascii) : N :=
  match str_index b58_digits c with
  | Ok i => i
  | Raise _ => 0
  end.

(** The integer a base-58 digit string denotes, most significant first. *)
Definition b58_value (s : str) : N := horner 58 (map b58_index s) 0.

(** The base-58 digit string of [n], without any leading zero digit. *)
Definition b58_numeral (n : N) : str := map b58char (digits_be 58 n).

(** Modelled from the spec: [bitcoin.core.Hash] is defined in bitcoin/core,
    outside this module. The spec describes the checksum as the first four
    bytes of the 32-byte digest primitive applied twice to the message, so
    [core_Hash digest] is that double application. *)
Definition core_Hash (digest : bytes -> bytes) (msg : bytes) : bytes :=
  digest (digest msg).

(** A stand-in digest with a 32-byte output, to evaluate the envelope on
    concrete data: the first byte of the message (0 when there is none),
    32 times. *)
Definition sample_digest (msg : bytes) : bytes := repeat (hd x00 msg) 32.

(** ** Sanity checks on concrete data *)

Definition hex (s : string) : bytes :=
  match unhexlify (lit s) with Ok b => b | Raise _ => [] end.

Example encode_address :
  encode (hex "00010966776006953d5567439e5e39f86a0d273beed61967f6")
  = Ok (lit "16UwLL9Risc3QfPqBUvKofHmBQ7wMtjvM").
Proof. vm_compute. reflexivity. Qed.

Example decode_address :
  decode (lit "16UwLL9Risc3QfPqBUvKofHmBQ7wMtjvM")
  = Ok (hex "00010966776006953d5567439e5e39f86a0d273beed61967f6").
Proof. vm_compute. reflexivity. Qed.

Example encode_empty : encode [] = Ok [].
Proof. reflexivity. Qed.

Example decode_empty : decode [] = Ok [].
Proof. reflexivity. Qed.

Example decode_one : decode (lit "1") = Ok [x00].
Proof. vm_compute. reflexivity. Qed.

Example decode_zero_char : decode (lit "0") = Raise InvalidBase58Error.
Proof. reflexivity. Qed.

(** * Positional notation *)

Section Digits.
Variable B : N.
Hypothesis B_ge_2 : 2 <= B.

Lemma turns_spec (n : N) : n < 2 ^ N.of_nat (turns n).
Proof.
  unfold turns. rewrite N2Nat.id. apply N.size_gt.
Qed.

Lemma div_base_bound (n : N) (f : nat) :
  n < 2 ^ N.of_nat (S f) -> n / B < 2 ^ N.of_nat f.
Proof.
  intros H. apply N.Div0.div_lt_upper_bound.
  rewrite Nat2N.inj_succ, N.pow_succ_r' in H.
  nia.
Qed.

(** Once the fuel covers the bit length, more fuel changes nothing: the
    loop has left through its test [n > 0]. *)
Lemma digits_le_fuel (f1 : nat) :
  forall (f2 : nat) (n : N),
    n < 2 ^ N.of_nat f1 -> n < 2 ^ N.of_nat f2 ->
    digits_le B f1 n = digits_le B f2 n.
Proof.
  induction f1 as [|f1 IH]; intros f2 n H1 H2.
  - simpl in H1. assert (n = 0) by lia. subst n.
    destruct f2; reflexivity.
  - destruct f2 as [|f2].
    + simpl in H2. assert (n = 0) by lia. subst n. reflexivity.
    + simpl. destruct (0 <? n); [|reflexivity].
      f_equal. apply IH; apply div_base_bound; assumption.
Qed.

Lemma digits_be_0 : digits_be B 0 = [].
Proof. reflexivity. Qed.

Lemma digits_be_pos (n : N) :
  0 < n -> digits_be B n = digits_be B (n / B) ++ [n mod B].
Proof.
  intros Hn. unfold digits_be.
  pose proof (turns_spec n) as Ht.
  destruct (turns n) as [|f] eqn:E.
  - simpl in Ht. lia.
  - simpl. apply N.ltb_lt in Hn. rewrite Hn. simpl. f_equal. f_equal.
    apply digits_le_fuel.
    + apply div_base_bound. assumption.
    + apply turns_spec.
Qed.

Lemma horner_app (ds1 ds2 : list N) (acc : N) :
  horner B (ds1 ++ ds2) acc = horner B ds2 (horner B ds1 acc).
Proof. apply fold_left_app. Qed.

Lemma horner_digits_be (n : N) : horner B (digits_be B n) 0 = n.
Proof.
  induction n as [n IH] using (well_founded_induction N.lt_wf_0).
  destruct (N.eq_dec n 0) as [->|Hn]; [reflexivity|].
  rewrite digits_be_pos by lia.
  rewrite horner_app, IH.
  - simpl. rewrite N.mul_comm. symmetry. apply N.div_mod. lia.
  - apply N.div_lt; lia.
Qed.

Lemma digits_be_bounded (n : N) : Forall (fun d => d < B) (digits_be B n).
Proof.
  induction n as [n IH] using (well_founded_induction N.lt_wf_0).
  destruct (N.eq_dec n 0) as [->|Hn]; [constructor|].
  rewrite digits_be_pos by lia.
  apply Forall_app. split.
  - apply IH. apply N.div_lt; lia.
  - constructor; [|constructor]. apply N.mod_lt. lia.
Qed.

Lemma hd_error_app_ne {A : Type} (l1 l2 : list A) :
  l1 <> [] -> hd_error (l1 ++ l2) = hd_error l1.
Proof. destruct l1; [congruence | reflexivity]. Qed.

Lemma digits_be_nil (n : N) : digits_be B n = [] -> n = 0.
Proof.
  intros H. destruct (N.eq_dec n 0) as [|Hn]; [assumption|].
  rewrite digits_be_pos in H by lia.
  destruct (digits_be B (n / B)); discriminate.
Qed.

(** The leading digit is never zero. *)
Lemma digits_be_hd (n : N) : hd_error (digits_be B n) <> Some 0.
Proof.
  induction n as [n IH] using (well_founded_induction N.lt_wf_0).
  destruct (N.eq_dec n 0) as [->|Hn]; [discriminate|].
  rewrite digits_be_pos by lia.
  destruct (digits_be B (n / B)) as [|d ds] eqn:E.
  - apply digits_be_nil in E. simpl. intros [= H].
    pose proof (N.div_mod n B ltac:(lia)). nia.
  - simpl. specialize (IH (n / B)). rewrite E in IH. apply IH.
    apply N.div_lt; lia.
Qed.

(** A digit sequence without a leading zero is the one of its value. *)
Lemma digits_be_horner (ds : list N) :
  Forall (fun d => d < B) ds -> hd_error ds <> Some 0 ->
  digits_be B (horner B ds 0) = ds.
Proof.
  induction ds as [|d ds IH] using rev_ind; intros Hb Hh; [reflexivity|].
  apply Forall_app in Hb. destruct Hb as [Hb Hd].
  inversion Hd as [|? ? Hd' _]; subst.
  rewrite horner_app. simpl.
  assert (Hds : digits_be B (horner B ds 0) = ds).
  { apply IH; [assumption|]. destruct ds; [discriminate|exact Hh]. }
  destruct ds as [|d0 ds'].
  - simpl in *. assert (d <> 0) by congruence.
    rewrite digits_be_pos by lia.
    rewrite N.div_small, N.mod_small by assumption. reflexivity.
  - set (v := horner B (d0 :: ds') 0) in *.
    assert (v <> 0).
    { intros Hv. rewrite Hv in Hds. discriminate. }
    rewrite digits_be_pos by nia.
    replace ((v * B + d) / B) with v.
    + replace ((v * B + d) mod B) with d; [rewrite Hds; reflexivity|].
      symmetry. rewrite N.add_comm, N.Div0.mod_add. apply N.mod_small. assumption.
    + symmetry. rewrite N.add_comm, N.div_add by lia.
      rewrite N.div_small by assumption. reflexivity.
Qed.

Lemma horner_canonical_inj (ds1 ds2 : list N) :
  Forall (fun d => d < B) ds1 -> hd_error ds1 <> Some 0 ->
  Forall (fun d => d < B) ds2 -> hd_error ds2 <> Some 0 ->
  horner B ds1 0 = horner B ds2 0 -> ds1 = ds2.
Proof.
  intros B1 H1 B2 H2 E.
  rewrite <- (digits_be_horner ds1), <- (digits_be_horner ds2) by assumption.
  rewrite E. reflexivity.
Qed.

(** Leading zeros do not change the value. *)
Lemma horner_zeros (k : nat) (ds : list N) :
  horner B (repeat 0 k ++ ds) 0 = horner B ds 0.
Proof.
  induction k as [|k IH]; [reflexivity|]. simpl. exact IH.
Qed.
End Digits.

(** * Hexadecimal conversions *)

Lemma hexval_hexchar (d : N) : d < 16 -> hexval (hexchar d) = Some d.
Proof.
  intros H. rewrite <- (N2Nat.id d).
  assert (Hk : (N.to_nat d < 16)%nat) by lia.
  generalize dependent (N.to_nat d). intros k Hk.
  do 16 (destruct k as [|k]; [reflexivity|]). lia.
Qed.

Lemma byte_nibbles (x : byte) :
  Byte.to_N x / 16 < 16 /\ Byte.to_N x mod 16 < 16 /\
  Byte.to_N x / 16 * 16 + Byte.to_N x mod 16 = Byte.to_N x.
Proof.
  pose proof (Byte.to_N_bounded x) as Hx.
  pose proof (N.div_mod (Byte.to_N x) 16 ltac:(lia)) as Hdm.
  pose proof (N.mod_lt (Byte.to_N x) 16 ltac:(lia)) as Hm.
  repeat split; [| assumption | lia].
  apply N.Div0.div_lt_upper_bound. lia.
Qed.

Lemma int16_digits_hexlify (b : bytes) :
  forall (r : str) (acc : N),
    int16_digits (hexlify b ++ r) acc
    = int16_digits r (horner 256 (map Byte.to_N b) acc).
Proof.
  induction b as [|x b IH]; intros r acc; [reflexivity|].
  destruct (byte_nibbles x) as (Hh & Hl & Hx).
  cbn [hexlify flat_map app int16_digits map].
  rewrite (hexval_hexchar _ Hh), (hexval_hexchar _ Hl).
  fold (hexlify b). rewrite IH.
  unfold horner. cbn [fold_left]. f_equal. f_equal. lia.
Qed.

(** [int('0x0' + hexlify(b), 16)] is the big-endian value of [b]; it never
    raises. *)
Lemma int16_hexlify (b : bytes) :
  int16 (lit "0x0" ++ hexlify b) = Ok (be_value b).
Proof.
  change (lit "0x0" ++ hexlify b)
    with ("0"%char :: "x"%char :: "0"%char :: hexlify b).
  cbn [int16 int16_digits]. change (hexval "0") with (Some 0).
  rewrite <- (app_nil_r (hexlify b)), int16_digits_hexlify. reflexivity.
Qed.

Lemma pair_ind {A : Type} (P : list A -> Prop) :
  P [] -> (forall a, P [a]) -> (forall a b r, P r -> P (a :: b :: r)) ->
  forall l, P l.
Proof.
  intros H0 H1 H2 l.
  assert (H : P l /\ forall a, P (a :: l)).
  { induction l as [|x l [IHl IHx]]; split; auto. }
  apply H.
Qed.

Lemma byte_of_N_to_N (v : N) : v < 256 -> Byte.to_N (byte_of_N v) = v.
Proof.
  intros Hv. unfold byte_of_N.
  destruct (Byte.of_N v) as [b|] eqn:E.
  - apply Byte.to_of_N. assumption.
  - apply Byte.of_N_None_iff in E. lia.
Qed.

Lemma byte_of_N_of_to (x : byte) : byte_of_N (Byte.to_N x) = x.
Proof. unfold byte_of_N. rewrite Byte.of_to_N. reflexivity. Qed.

Lemma map_byte_of_N_to_N (b : bytes) : map byte_of_N (map Byte.to_N b) = b.
Proof.
  rewrite map_map. rewrite <- (map_id b) at 2.
  apply map_ext. intros x. apply byte_of_N_of_to.
Qed.

Lemma unhexlify_pairs (ds : list N) :
  Forall (fun d => d < 16) ds -> Nat.odd (length ds) = false ->
  unhexlify (map hexchar ds) = Ok (map byte_of_N (pair_up ds)).
Proof.
  induction ds as [|a|a b r IH] using pair_ind; intros Hb Hodd.
  - reflexivity.
  - discriminate.
  - inversion Hb as [|? ? Ha Hb']. inversion Hb' as [|? ? Hb0 Hr]. subst.
    cbn [map unhexlify pair_up].
    rewrite (hexval_hexchar _ Ha), (hexval_hexchar _ Hb0).
    rewrite IH by assumption. reflexivity.
Qed.

Lemma pair_up_bounded (ds : list N) :
  Forall (fun d => d < 16) ds -> Nat.odd (length ds) = false ->
  Forall (fun d => d < 256) (pair_up ds).
Proof.
  induction ds as [|a|a b r IH] using pair_ind; intros Hb Hodd.
  - constructor.
  - discriminate.
  - inversion Hb as [|? ? Ha Hb']. inversion Hb' as [|? ? Hb0 Hr]. subst.
    cbn [pair_up]. constructor; [lia|]. apply IH; assumption.
Qed.

Lemma horner_pair_up (ds : list N) :
  Nat.odd (length ds) = false ->
  forall acc, horner 256 (pair_up ds) acc = horner 16 ds acc.
Proof.
  induction ds as [|a|a b r IH] using pair_ind; intros Hodd acc.
  - reflexivity.
  - discriminate.
  - cbn [pair_up]. unfold horner in *. cbn [fold_left].
    rewrite IH by assumption. f_equal. lia.
Qed.

(** What the integer-to-bytes step of [decode] yields: one zero byte for 0,
    the minimal big-endian bytes otherwise; it never raises. *)
Lemma int_to_bytes_spec (n : N) :
  int_to_bytes n = Ok (if n =? 0 then [x00] else minimal_be_bytes n).
Proof.
  unfold int_to_bytes, format_x.
  destruct (N.eqb_spec n 0) as [->|Hn]; [reflexivity|].
  assert (H16 : 2 <= 16) by lia. assert (H256 : 2 <= 256) by lia.
  pose proof (digits_be_bounded 16 H16 n) as Hb.
  pose proof (digits_be_hd 16 H16 n) as Hh.
  pose proof (horner_digits_be 16 H16 n) as Hv.
  set (ds := digits_be 16 n) in *.
  rewrite length_map.
  set (ds' := if Nat.odd (length ds) then 0 :: ds else ds).
  assert (Hpad : (if Nat.odd (length ds) then lit "0" ++ map hexchar ds
                  else map hexchar ds) = map hexchar ds').
  { unfold ds'. destruct (Nat.odd (length ds)); reflexivity. }
  rewrite Hpad.
  assert (Hodd : Nat.odd (length ds') = false).
  { unfold ds'. destruct (Nat.odd (length ds)) eqn:E; [|assumption].
    cbn [length]. rewrite Nat.odd_succ, <- Nat.negb_odd, E. reflexivity. }
  assert (Hb' : Forall (fun d => d < 16) ds').
  { unfold ds'. destruct (Nat.odd (length ds)); [constructor; [lia|]|]; assumption. }
  assert (Hv' : horner 16 ds' 0 = n).
  { unfold ds'. destruct (Nat.odd (length ds)); assumption. }
  rewrite unhexlify_pairs by assumption.
  unfold minimal_be_bytes. f_equal. f_equal.
  apply (horner_canonical_inj 256 H256).
  - apply pair_up_bounded; assumption.
  - assert (Hne : ds <> []).
    { intros E. rewrite E in Hv. cbn in Hv. congruence. }
    unfold ds' in *. destruct (Nat.odd (length ds)) eqn:E.
    + destruct ds as [|d r]; [congruence|]. cbn. intros [= H0].
      apply Hh. cbn. f_equal. lia.
    + destruct ds as [|d [|e r]]; [congruence|discriminate|].
      cbn. intros [= H0]. apply Hh. cbn. f_equal. lia.
  - apply digits_be_bounded. assumption.
  - apply digits_be_hd. assumption.
  - rewrite horner_pair_up, Hv', horner_digits_be by assumption. reflexivity.
Qed.

(** * The alphabet *)

Lemma b58char_index (r : N) :
  r < 58 ->
  str_contains b58_digits (b58char r) = true /\
  str_index b58_digits (b58char r) = Ok r.
Proof.
  intros H. rewrite <- (N2Nat.id r).
  assert (Hk : (N.to_nat r < 58)%nat) by lia.
  generalize dependent (N.to_nat r). intros k Hk.
  do 58 (destruct k as [|k]; [split; reflexivity|]). lia.
Qed.

Lemma str_contains_index (s : str) (c : ascii) :
  str_contains s c = true -> exists i, str_index s c = Ok i.
Proof.
  induction s as [|x s IH]; [discriminate|].
  cbn. rewrite (Ascii.eqb_sym c x).
  destruct (Ascii.eqb x c); [eexists; reflexivity|].
  cbn. intros H. destruct (IH H) as [i ->]. eexists. reflexivity.
Qed.

Lemma b58_index_ok (c : ascii) :
  str_contains b58_digits c = true ->
  str_index b58_digits c = Ok (b58_index c).
Proof.
  intros H. destruct (str_contains_index _ _ H) as [i Hi].
  unfold b58_index. rewrite Hi. reflexivity.
Qed.

Lemma b58_index_char (r : N) : r < 58 -> b58_index (b58char r) = r.
Proof.
  intros H. unfold b58_index.
  destruct (b58char_index r H) as [_ ->]. reflexivity.
Qed.

(** Only digit 0 is written ['1']. *)
Lemma b58char_zero (r : N) : r < 58 -> b58char r = b58char 0 -> r = 0.
Proof.
  intros H E. rewrite <- (b58_index_char r H), E. reflexivity.
Qed.

Lemma map_b58_index_char (ds : list N) :
  Forall (fun d => d < 58) ds -> map b58_index (map b58char ds) = ds.
Proof.
  induction 1 as [|d ds Hd _ IH]; [reflexivity|].
  cbn [map]. rewrite IH, b58_index_char by assumption. reflexivity.
Qed.

Lemma forallb_b58char (ds : list N) :
  Forall (fun d => d < 58) ds ->
  forallb (str_contains b58_digits) (map b58char ds) = true.
Proof.
  induction 1 as [|d ds Hd _ IH]; [reflexivity|].
  cbn [map forallb]. rewrite IH.
  destruct (b58char_index d Hd) as [-> _]. reflexivity.
Qed.

(** * Sequences *)

Lemma slice_init {A : Type} (l : list A) (x : A) :
  slice None (Some (-1)%Z) (l ++ [x]) = l.
Proof.
  unfold slice, clamp. cbn [Z.ltb Z.compare skipn].
  rewrite length_app. cbn [length].
  replace (Z.to_nat (Z.max 0 (Z.of_nat (length l + 1) + -1)) - 0)%nat
    with (length l + 0)%nat by lia.
  rewrite firstn_app_2. cbn. apply app_nil_r.
Qed.

Lemma count_pad_repeat {A : Type} (eqb : A -> A -> bool) (z : A) (k : nat)
      (l : list A) :
  eqb z z = true ->
  count_pad eqb z (repeat z k ++ l) = (k + count_pad eqb z l)%nat.
Proof.
  intros Hz. induction k as [|k IH]; [reflexivity|].
  cbn. rewrite Hz, IH. reflexivity.
Qed.

Lemma count_pad_hd {A : Type} (eqb : A -> A -> bool) (z : A) (l : list A) :
  (forall c, hd_error l = Some c -> eqb c z = false) ->
  count_pad eqb z l = O.
Proof.
  destruct l as [|c l]; [reflexivity|].
  intros H. cbn. rewrite (H c eq_refl). reflexivity.
Qed.

Lemma byte_eqb_refl (x : byte) : Byte.eqb x x = true.
Proof. apply Byte.byte_dec_lb. reflexivity. Qed.

Lemma byte_eqb_neq (x y : byte) : x <> y -> Byte.eqb x y = false.
Proof.
  intros H. destruct (Byte.eqb x y) eqn:E; [|reflexivity].
  apply Byte.byte_dec_bl in E. contradiction.
Qed.

(** Every byte string is a run of zero bytes followed by a rest that does
    not start with a zero byte; the run is what the padding loop counts. *)
Lemma split_pad (b : bytes) :
  exists rest,
    b = repeat x00 (count_pad Byte.eqb x00 b) ++ rest /\
    hd_error rest <> Some x00.
Proof.
  induction b as [|x b (rest & Hb & Hr)].
  - exists []. split; [reflexivity|discriminate].
  - cbn [count_pad]. destruct (Byte.eqb x x00) eqn:E.
    + apply Byte.byte_dec_bl in E. subst x.
      exists rest. split; [|assumption].
      cbn [repeat app]. f_equal. assumption.
    + exists (x :: b). split; [reflexivity|].
      cbn. intros [= ->]. rewrite byte_eqb_refl in E. discriminate.
Qed.

Lemma list_eqb_bytes (b1 b2 : bytes) :
  list_eqb Byte.eqb b1 b2 = true <-> b1 = b2.
Proof.
  revert b2. induction b1 as [|x b1 IH]; intros [|y b2]; cbn;
    try (split; [discriminate|congruence]); try tauto.
  rewrite andb_true_iff, IH. split.
  - intros [E ->]. apply Byte.byte_dec_bl in E. congruence.
  - intros [= -> ->]. split; [apply byte_eqb_refl|reflexivity].
Qed.

(** * [encode] *)

Lemma encode_loop_digits (fuel : nat) :
  forall (n : N) (res : str),
    encode_loop fuel n res = res ++ map b58char (digits_le 58 fuel n).
Proof.
  induction fuel as [|fuel IH]; intros n res; cbn [encode_loop digits_le].
  - cbn. symmetry. apply app_nil_r.
  - destruct (0 <? n); [|cbn; symmetry; apply app_nil_r].
    unfold N.div, N.modulo.
    destruct (N.div_eucl n 58) as [q r]. cbn [fst snd map].
    rewrite IH, <- app_assoc. reflexivity.
Qed.

(** The turns granted to the loop of [encode] are enough: it leaves through
    its test [n > 0], and any larger number of turns gives the same list. *)
Lemma encode_loop_fuel (fuel : nat) (n : N) (res : str) :
  (turns n <= fuel)%nat ->
  encode_loop fuel n res = encode_loop (turns n) n res.
Proof.
  intros Hf. rewrite !encode_loop_digits. f_equal. f_equal.
  apply digits_le_fuel; [lia| |apply turns_spec].
  apply N.lt_le_trans with (2 ^ N.of_nat (turns n)); [apply turns_spec|].
  apply N.pow_le_mono_r; lia.
Qed.

(** [encode] never raises; its result is the padding followed by the
    base-58 numeral of the big-endian value. *)
Lemma encode_spec (b : bytes) :
  encode b = Ok (repeat (b58char 0) (count_pad Byte.eqb x00 b)
                 ++ b58_numeral (be_value b)).
Proof.
  unfold encode. rewrite int16_hexlify. cbn [bind].
  rewrite encode_loop_digits. cbn [app].
  unfold b58_numeral, digits_be. rewrite map_rev. reflexivity.
Qed.

Lemma be_value_pad (k : nat) (rest : bytes) :
  be_value (repeat x00 k ++ rest) = be_value rest.
Proof.
  unfold be_value. rewrite map_app, map_repeat. apply horner_zeros.
Qed.

Lemma bytes_canonical (rest : bytes) :
  hd_error rest <> Some x00 ->
  Forall (fun d => d < 256) (map Byte.to_N rest) /\
  hd_error (map Byte.to_N rest) <> Some 0.
Proof.
  intros Hr. split.
  - apply Forall_forall. intros d Hd. apply in_map_iff in Hd.
    destruct Hd as (x & <- & _). pose proof (Byte.to_N_bounded x). lia.
  - destruct rest as [|x rest]; [discriminate|].
    cbn. intros [= E]. apply Hr. cbn. f_equal.
    rewrite <- (byte_of_N_of_to x), E. reflexivity.
Qed.

(** The minimal bytes of the value of a byte string without leading zero
    byte are that byte string. *)
Lemma minimal_be_bytes_value (rest : bytes) :
  hd_error rest <> Some x00 -> minimal_be_bytes (be_value rest) = rest.
Proof.
  intros Hr. destruct (bytes_canonical rest Hr) as [Hb Hh].
  unfold minimal_be_bytes, be_value.
  rewrite digits_be_horner by (assumption || lia).
  apply map_byte_of_N_to_N.
Qed.

Lemma be_value_zero (rest : bytes) :
  hd_error rest <> Some x00 -> be_value rest = 0 -> rest = [].
Proof.
  intros Hr Hv. rewrite <- (minimal_be_bytes_value rest Hr), Hv. reflexivity.
Qed.

(** * [decode] *)

Lemma decode_loop_spec (s : str) :
  forall n : N,
    decode_loop s n =
    if forallb (str_contains b58_digits) s
    then Ok (horner 58 (map b58_index s) n)
    else Raise InvalidBase58Error.
Proof.
  induction s as [|c s IH]; intros n; [reflexivity|].
  cbn [decode_loop forallb map].
  destruct (str_contains b58_digits c) eqn:E; [|reflexivity].
  cbn [negb andb]. rewrite (b58_index_ok c E). cbn [bind].
  rewrite IH. reflexivity.
Qed.

(** [decode] in closed form: the empty string gives no bytes; a string
    with a foreign character raises [InvalidBase58Error]; otherwise the
    result is the padding counted on [s[:-1]], then one zero byte when the
    accumulated integer is 0 and its minimal big-endian bytes when not. *)
Lemma decode_spec (s : str) :
  decode s =
  match s with
  | [] => Ok []
  | _ =>
      if forallb (str_contains b58_digits) s
      then Ok (repeat x00 (count_pad Ascii.eqb (b58char 0)
                                     (slice None (Some (-1)%Z) s))
               ++ (if b58_value s =? 0 then [x00]
                   else minimal_be_bytes (b58_value s)))
      else Raise InvalidBase58Error
  end.
Proof.
  destruct s as [|c s]; [reflexivity|].
  unfold decode. rewrite decode_loop_spec.
  destruct (forallb (str_contains b58_digits) (c :: s)); [|reflexivity].
  cbn [bind].
  fold (b58_value (c :: s)).
  fold (int_to_bytes (b58_value (c :: s))).
  rewrite int_to_bytes_spec. reflexivity.
Qed.

Lemma decode_nonempty (s : str) :
  s <> [] ->
  decode s =
  if forallb (str_contains b58_digits) s
  then Ok (repeat x00 (count_pad Ascii.eqb (b58char 0)
                                 (slice None (Some (-1)%Z) s))
           ++ (if b58_value s =? 0 then [x00]
               else minimal_be_bytes (b58_value s)))
  else Raise InvalidBase58Error.
Proof.
  intros Hs. rewrite decode_spec. destruct s; [congruence|reflexivity].
Qed.

Lemma b58_numeral_pos (n : N) :
  0 < n -> b58_numeral n = b58_numeral (n / 58) ++ [b58char (n mod 58)].
Proof.
  intros Hn. unfold b58_numeral.
  rewrite (digits_be_pos 58) by (assumption || lia).
  apply map_app.
Qed.

(** A base-58 numeral never starts with the zero digit ['1']. *)
Lemma b58_numeral_hd (n : N) (c : ascii) :
  hd_error (b58_numeral n) = Some c -> Ascii.eqb c (b58char 0) = false.
Proof.
  assert (H58 : 2 <= 58) by lia.
  pose proof (digits_be_hd 58 H58 n) as Hh.
  pose proof (digits_be_bounded 58 H58 n) as Hb.
  unfold b58_numeral. destruct (digits_be 58 n) as [|d ds]; [discriminate|].
  cbn. intros [= <-]. apply Ascii.eqb_neq. intros E.
  inversion Hb as [|? ? Hd _]; subst.
  apply b58char_zero in E; [|assumption]. subst d. apply Hh. reflexivity.
Qed.

Lemma b58_value_padded (k : nat) (n : N) :
  forallb (str_contains b58_digits) (repeat (b58char 0) k ++ b58_numeral n)
  = true /\
  b58_value (repeat (b58char 0) k ++ b58_numeral n) = n.
Proof.
  assert (H58 : 2 <= 58) by lia.
  assert (E : repeat (b58char 0) k ++ b58_numeral n
              = map b58char (repeat 0 k ++ digits_be 58 n)).
  { rewrite map_app, map_repeat. reflexivity. }
  assert (Hb : Forall (fun d => d < 58) (repeat 0 k ++ digits_be 58 n)).
  { apply Forall_app. split; [|apply digits_be_bounded; assumption].
    apply Forall_forall. intros d Hd. apply repeat_spec in Hd. lia. }
  rewrite E. split; [apply forallb_b58char; assumption|].
  unfold b58_value. rewrite map_b58_index_char by assumption.
  rewrite horner_zeros. apply horner_digits_be. assumption.
Qed.

(** Decoding a canonical string: [k] zero digits, then the numeral of [n]. *)
Lemma decode_padded_numeral (k : nat) (n : N) :
  decode (repeat (b58char 0) k ++ b58_numeral n)
  = Ok (repeat x00 k ++ minimal_be_bytes n).
Proof.
  destruct (b58_value_padded k n) as [Hall Hval].
  destruct (N.eq_dec n 0) as [->|Hn].
  - change (b58_numeral 0) with (@nil ascii) in *.
    change (minimal_be_bytes 0) with (@nil byte).
    rewrite !app_nil_r in *.
    destruct k as [|k]; [reflexivity|].
    rewrite decode_nonempty by discriminate.
    rewrite Hall, Hval. cbn [N.eqb].
    cbn [repeat]. rewrite (repeat_cons k (b58char 0)), slice_init.
    rewrite <- (app_nil_r (repeat (b58char 0) k)).
    rewrite count_pad_repeat by apply Ascii.eqb_refl.
    cbn [count_pad]. rewrite Nat.add_0_r.
    f_equal. symmetry. apply (repeat_cons k x00).
  - rewrite decode_nonempty.
    2:{ rewrite b58_numeral_pos by lia. intros E.
        apply app_eq_nil in E. destruct E as [_ E].
        apply app_eq_nil in E. destruct E as [_ E]. discriminate. }
    rewrite Hall, Hval.
    destruct (N.eqb_spec n 0) as [|_]; [contradiction|].
    rewrite b58_numeral_pos by lia.
    rewrite app_assoc, slice_init.
    rewrite count_pad_repeat by apply Ascii.eqb_refl.
    rewrite (count_pad_hd _ _ (b58_numeral (n / 58))).
    + rewrite Nat.add_0_r. reflexivity.
    + apply b58_numeral_hd.
Qed.

(** The round trip, for a byte string split at its padding. *)
Lemma decode_encode_bytes (b : bytes) :
  exists s, encode b = Ok s /\ decode s = Ok b.
Proof.
  rewrite encode_spec. eexists. split; [reflexivity|].
  rewrite decode_padded_numeral.
  destruct (split_pad b) as (rest & Hb & Hr).
  rewrite Hb at 2 3. rewrite be_value_pad.
  rewrite minimal_be_bytes_value by assumption. reflexivity.
Qed.

(** * Slices of the decoded envelope *)

Lemma firstn_min {A : Type} (n : nat) (l : list A) :
  firstn (Nat.min n (length l)) l = firstn n l.
Proof.
  destruct (Nat.le_ge_cases n (length l)) as [H|H].
  - rewrite Nat.min_l by assumption. reflexivity.
  - rewrite Nat.min_r by assumption.
    rewrite firstn_all, firstn_all2 by assumption. reflexivity.
Qed.

Lemma slice_to {A : Type} (n : nat) (l : list A) :
  slice None (Some (Z.of_nat n)) l = firstn n l /\
  slice (Some 0%Z) (Some (Z.of_nat n)) l = firstn n l.
Proof.
  unfold slice, clamp.
  destruct (Z.ltb_spec (Z.of_nat n) 0) as [H|_]; [lia|].
  rewrite Nat2Z.id. cbn [Z.ltb Z.compare Z.to_nat Nat.min skipn].
  rewrite Nat.sub_0_r. split; apply firstn_min.
Qed.

Lemma slice_none_4 {A : Type} (l : list A) :
  slice None (Some 4%Z) l = firstn 4 l.
Proof. exact (proj1 (slice_to 4 l)). Qed.

Lemma slice_0_4 {A : Type} (l : list A) :
  slice (Some 0%Z) (Some 4%Z) l = firstn 4 l.
Proof. exact (proj2 (slice_to 4 l)). Qed.

Lemma slice_0_1 {A : Type} (l : list A) :
  slice (Some 0%Z) (Some 1%Z) l = firstn 1 l.
Proof. exact (proj2 (slice_to 1 l)). Qed.

Lemma slice_last4 {A : Type} (l : list A) :
  slice (Some (-4)%Z) None l = skipn (length l - 4) l.
Proof.
  unfold slice, clamp. cbn [Z.ltb Z.compare].
  replace (Z.to_nat (Z.max 0 (Z.of_nat (length l) + -4)))
    with (length l - 4)%nat by lia.
  apply firstn_all2. rewrite length_skipn. lia.
Qed.

Lemma slice_middle {A : Type} (l : list A) :
  slice (Some 1%Z) (Some (-4)%Z) l = firstn (length l - 4 - 1) (skipn 1 l).
Proof.
  unfold slice, clamp. cbn [Z.ltb Z.compare].
  replace (Z.to_nat (Z.max 0 (Z.of_nat (length l) + -4)))
    with (length l - 4)%nat by lia.
  change (Z.to_nat 1) with 1%nat.
  destruct l as [|x l]; [reflexivity|].
  cbn [length]. rewrite Nat.min_l by lia. reflexivity.
Qed.

(** The three slices of [version ‖ payload ‖ checksum]. *)
Lemma envelope_slices (v : byte) (p c : bytes) :
  length c = 4%nat ->
  slice (Some 0%Z) (Some 1%Z) (v :: p ++ c) = [v] /\
  slice (Some 1%Z) (Some (-4)%Z) (v :: p ++ c) = p /\
  slice (Some (-4)%Z) None (v :: p ++ c) = c.
Proof.
  intros Hc. split; [|split].
  - rewrite slice_0_1. reflexivity.
  - rewrite slice_middle. cbn [length skipn]. rewrite length_app, Hc.
    replace (S (length p + 4) - 4 - 1)%nat with (length p + 0)%nat by lia.
    rewrite firstn_app_2. cbn. apply app_nil_r.
  - rewrite slice_last4. cbn [length]. rewrite length_app, Hc.
    replace (S (length p + 4) - 4)%nat with (S (length p)) by lia.
    cbn [skipn]. rewrite skipn_app, skipn_all, Nat.sub_diag. reflexivity.
Qed.

Lemma bord_bchr (v : Z) :
  (0 <= v <= 255)%Z ->
  CBase58Data.bchr v = Ok [byte_of_N (Z.to_N v)] /\
  CBase58Data.bord (byte_of_N (Z.to_N v)) = v.
Proof.
  intros Hv. unfold CBase58Data.bchr, CBase58Data.bord.
  destruct (Z.leb_spec 0 v); [|lia]. destruct (Z.leb_spec v 255); [|lia].
  split; [reflexivity|]. rewrite byte_of_N_to_N by lia. lia.
Qed.

Lemma from_bytes_spec (data : bytes) (v : Z) :
  CBase58Data.from_bytes data v =
  if ((0 <=? v) && (v <=? 255))%Z
  then Ok {| CBase58Data.data := data; CBase58Data.nVersion := v |}
  else Raise ValueError.
Proof.
  unfold CBase58Data.from_bytes.
  destruct ((0 <=? v) && (v <=? 255))%Z; reflexivity.
Qed.

Lemma str_contains_In (s : str) (c : ascii) :
  str_contains s c = true <-> In c s.
Proof.
  unfold str_contains. rewrite existsb_exists. split.
  - intros (x & Hx & E). apply Ascii.eqb_eq in E. subst. assumption.
  - intros H. exists c. split; [assumption|apply Ascii.eqb_refl].
Qed.

Lemma forallb_alphabet (s : str) :
  forallb (str_contains b58_digits) s = true
  <-> Forall (fun c => In c b58_digits) s.
Proof.
  rewrite forallb_forall, Forall_forall.
  split; intros H c Hc; apply str_contains_In, H, Hc.
Qed.

Lemma forallb_false_In {A : Type} (f : A -> bool) (l : list A) :
  forallb f l = false -> exists x, In x l /\ f x = false.
Proof.
  induction l as [|x l IH]; [discriminate|].
  cbn. destruct (f x) eqn:E.
  - intros H. destruct (IH H) as (y & Hy & Hf). exists y. auto.
  - intros _. exists x. auto.
Qed.

(** [decode] either returns, on a string of alphabet characters, or raises
    [InvalidBase58Error], on any other string. *)
Lemma decode_cases (s : str) :
  (forallb (str_contains b58_digits) s = true /\ exists b, decode s = Ok b)
  \/ (forallb (str_contains b58_digits) s = false /\
      decode s = Raise InvalidBase58Error).
Proof.
  rewrite decode_spec. destruct s as [|c s].
  - left. split; [reflexivity|]. eexists. reflexivity.
  - destruct (forallb (str_contains b58_digits) (c :: s)).
    + left. split; [reflexivity|]. eexists. reflexivity.
    + right. split; reflexivity.
Qed.

Lemma slice_init_removelast {A : Type} (l : list A) :
  slice None (Some (-1)%Z) l = removelast l.
Proof.
  destruct l as [|x l] using rev_ind; [reflexivity|].
  rewrite slice_init, removelast_last. reflexivity.
Qed.

(** * The envelope *)

Section Envelope.
Variable Hash : bytes -> bytes.

Lemma str_spec (v : byte) (p : bytes) :
  CBase58Data.__str__ Hash
    {| CBase58Data.data := p; CBase58Data.nVersion := CBase58Data.bord v |}
  = encode (v :: p ++ firstn 4 (Hash (v :: p))).
Proof.
  unfold CBase58Data.__str__. cbn [CBase58Data.nVersion CBase58Data.data].
  assert (Hv : (0 <= CBase58Data.bord v <= 255)%Z).
  { unfold CBase58Data.bord. pose proof (Byte.to_N_bounded v). lia. }
  destruct (bord_bchr _ Hv) as [-> _].
  unfold CBase58Data.bord. rewrite N2Z.id, byte_of_N_of_to.
  cbn [bind app]. rewrite slice_0_4. reflexivity.
Qed.

(** Parsing a string whose decoding has the three parts of an envelope. *)
Lemma new_of_envelope (s : str) (v : byte) (p c : bytes) :
  decode s = Ok (v :: p ++ c) -> length c = 4%nat ->
  CBase58Data.__new__ Hash s =
  if list_eqb Byte.eqb c (firstn 4 (Hash (v :: p)))
  then Ok {| CBase58Data.data := p;
             CBase58Data.nVersion := CBase58Data.bord v |}
  else Raise Base58ChecksumError.
Proof.
  intros Hd Hc. unfold CBase58Data.__new__. rewrite Hd. cbn [bind].
  destruct (envelope_slices v p c Hc) as (-> & -> & ->).
  cbn [app]. rewrite slice_none_4.
  destruct (list_eqb Byte.eqb c (firstn 4 (Hash (v :: p)))); reflexivity.
Qed.

(** Parsing a string whose decoding is shorter than an envelope: the
    whole of it is taken for the checksum, of an empty payload. *)
Lemma new_of_short (s : str) (k : bytes) :
  decode s = Ok k -> (length k < 5)%nat ->
  CBase58Data.__new__ Hash s =
  if list_eqb Byte.eqb k (firstn 4 (Hash (firstn 1 k)))
  then v <- getitem (firstn 1 k) 0 ;;
       Ok {| CBase58Data.data := [];
             CBase58Data.nVersion := CBase58Data.bord v |}
  else Raise Base58ChecksumError.
Proof.
  intros Hd Hk. unfold CBase58Data.__new__. rewrite Hd. cbn [bind].
  rewrite slice_0_1, slice_middle, slice_last4.
  replace (length k - 4 - 1)%nat with O by lia.
  replace (length k - 4)%nat with O by lia.
  rewrite firstn_O, skipn_O, app_nil_r, slice_none_4.
  destruct (list_eqb Byte.eqb k (firstn 4 (Hash (firstn 1 k)))); reflexivity.
Qed.

Hypothesis Hash_length : forall m, length (Hash m) = 32%nat.

Lemma checksum_length (m : bytes) : length (firstn 4 (Hash m)) = 4%nat.
Proof. rewrite length_firstn, Hash_length. reflexivity. Qed.

Lemma new_of_short_lt4 (s : str) (k : bytes) :
  decode s = Ok k -> (length k < 4)%nat ->
  CBase58Data.__new__ Hash s = Raise Base58ChecksumError.
Proof.
  intros Hd Hk. rewrite (new_of_short s k Hd) by lia.
  destruct (list_eqb Byte.eqb k (firstn 4 (Hash (firstn 1 k)))) eqn:E;
    [|reflexivity].
  apply list_eqb_bytes in E.
  pose proof (checksum_length (firstn 1 k)) as Hl. rewrite <- E in Hl. lia.
Qed.
End Envelope.

(** * The claims *)

(** C1. Round trip of the codec: for every byte string [b] (empty, all
    zero, with leading zero bytes or not), [encode b] returns a string and
    [decode] of that string returns [b]. *)
Theorem decode_encode (b : bytes) : (s <- encode b ;; decode s) = Ok b.
Proof.
  destruct (decode_encode_bytes b) as (s & -> & Hd). exact Hd.
Qed.

(** C2. Round trip of the envelope: with a hash of 32-byte output, for
    every version [v] in [0,255] and every payload [p], building the
    instance with [from_bytes], converting it with [__str__] and parsing
    the string with [__new__] succeeds and yields version [v] and payload
    [p]. *)
Theorem parse_serialize (Hash : bytes -> bytes) (v : Z) (p : bytes) :
  (forall m, length (Hash m) = 32%nat) ->
  (0 <= v <= 255)%Z ->
  (self <- CBase58Data.from_bytes p v ;;
   s <- CBase58Data.__str__ Hash self ;;
   CBase58Data.__new__ Hash s)
  = Ok {| CBase58Data.data := p; CBase58Data.nVersion := v |}.
Proof.
  intros Hlen Hv. rewrite from_bytes_spec.
  destruct (Z.leb_spec 0 v); [|lia]. destruct (Z.leb_spec v 255); [|lia].
  cbn [andb bind].
  destruct (bord_bchr v Hv) as [_ Hb].
  set (vb := byte_of_N (Z.to_N v)) in *.
  rewrite <- Hb at 1. rewrite str_spec.
  set (c := firstn 4 (Hash (vb :: p))).
  destruct (decode_encode_bytes (vb :: p ++ c)) as (s & -> & Hd).
  cbn [bind].
  rewrite (new_of_envelope Hash s vb p c Hd (checksum_length Hash Hlen _)).
  fold c. rewrite (proj2 (list_eqb_bytes c c) eq_refl), Hb. reflexivity.
Qed.

Lemma parse_serialize_witness :
  (forall m, length (sample_digest m) = 32%nat) /\
  (0 <= 5 <= 255)%Z /\
  (self <- CBase58Data.from_bytes [x01] 5 ;;
   s <- CBase58Data.__str__ sample_digest self ;;
   CBase58Data.__new__ sample_digest s)
  = Ok {| CBase58Data.data := [x01]; CBase58Data.nVersion := 5 |}.
Proof.
  split; [intros m; reflexivity|]. split; [lia|].
  apply (parse_serialize sample_digest 5 [x01]); [intros m; reflexivity|lia].
Defined.

(** C3, as the code has it. There is no too-short error kind: with a
    hash of 32-byte output, when [decode s] returns fewer than 5 bytes,
    the only error [__new__] raises is [Base58ChecksumError], and it does
    raise it whenever fewer than 4 bytes were decoded. Nothing is stated
    of what [__new__] returns. *)
Theorem new_short_input (Hash : bytes -> bytes) (s : str) (k : bytes) :
  (forall m, length (Hash m) = 32%nat) ->
  decode s = Ok k -> (length k < 5)%nat ->
  (forall e, CBase58Data.__new__ Hash s = Raise e -> e = Base58ChecksumError)
  /\ ((length k < 4)%nat ->
      CBase58Data.__new__ Hash s = Raise Base58ChecksumError).
Proof.
  intros Hlen Hd Hk. split.
  - intros e. rewrite (new_of_short Hash s k Hd Hk).
    destruct (list_eqb Byte.eqb k (firstn 4 (Hash (firstn 1 k)))) eqn:E;
      [|congruence].
    apply list_eqb_bytes in E.
    pose proof (checksum_length Hash Hlen (firstn 1 k)) as Hl.
    rewrite <- E in Hl. destruct k as [|x k]; discriminate.
  - apply new_of_short_lt4; assumption.
Qed.

Lemma new_short_input_witness :
  (forall m, length (sample_digest m) = 32%nat) /\
  decode (lit "2") = Ok [x01] /\
  (length [x01] < 5)%nat /\
  CBase58Data.__new__ sample_digest (lit "2") = Raise Base58ChecksumError.
Proof.
  assert (Hl : forall m, length (sample_digest m) = 32%nat)
    by (intros m; reflexivity).
  assert (Hd : decode (lit "2") = Ok [x01]) by (vm_compute; reflexivity).
  assert (Hk : (length [x01] < 5)%nat) by (simpl; lia).
  split; [exact Hl|]. split; [exact Hd|]. split; [exact Hk|].
  apply (proj2 (new_short_input sample_digest (lit "2") [x01] Hl Hd Hk)).
  simpl. lia.
Defined.

(** C3, as stated, fails: [decode "2"] returns the single byte 01, fewer
    than 5 bytes, and [__new__] raises [Base58ChecksumError], not an error
    of a kind of its own. *)
Lemma new_short_input_counterexample :
  decode (lit "2") = Ok [x01] /\
  (length [x01] < 5)%nat /\
  CBase58Data.__new__ sample_digest (lit "2") = Raise Base58ChecksumError /\
  ~ (exists e, CBase58Data.__new__ sample_digest (lit "2") = Raise e /\
               e <> Base58ChecksumError /\ e <> InvalidBase58Error).
Proof.
  split; [vm_compute; reflexivity|]. split; [simpl; lia|].
  split; [vm_compute; reflexivity|].
  intros (e & He & Hc & _). vm_compute in He. congruence.
Qed.

(** The missing length check at work. The double SHA-256 of the single
    byte 74 starts with 74 15 e1 00. With any hash that does so, the
    string ["3y6uvf"], which decodes to these four bytes only, is taken
    for a version byte 0x74 = 116, an empty payload and a checksum that
    contains the version byte itself, and is accepted. *)
Lemma new_accepts_four_bytes (Hash : bytes -> bytes) :
  firstn 4 (Hash [x74]) = [x74; x15; xe1; x00] ->
  decode (lit "3y6uvf") = Ok [x74; x15; xe1; x00]
  /\ CBase58Data.__new__ Hash (lit "3y6uvf")
     = Ok {| CBase58Data.data := []; CBase58Data.nVersion := 116 |}.
Proof.
  intros HH.
  assert (Hd : decode (lit "3y6uvf") = Ok [x74; x15; xe1; x00])
    by (vm_compute; reflexivity).
  split; [exact Hd|].
  rewrite (new_of_short Hash _ _ Hd) by (simpl; lia).
  change (firstn 1 [x74; x15; xe1; x00]) with [x74].
  rewrite HH. reflexivity.
Qed.

(** C4. The checksum is the first four bytes of the digest applied twice
    to [version_byte ‖ payload]: [__str__] encodes the version byte, the
    payload and that checksum, and [__new__], on a string that decodes to
    a version byte, a payload and four more bytes, accepts exactly when
    those four bytes are that checksum. *)
Theorem checksum_double_hash (digest : bytes -> bytes) (v : byte)
        (p c : bytes) (s : str) :
  length c = 4%nat ->
  decode s = Ok (v :: p ++ c) ->
  let check := firstn 4 (digest (digest (v :: p))) in
  (self <- CBase58Data.from_bytes p (CBase58Data.bord v) ;;
   CBase58Data.__str__ (core_Hash digest) self)
  = encode (v :: p ++ check)
  /\ CBase58Data.__new__ (core_Hash digest) s
     = if list_eqb Byte.eqb c check
       then Ok {| CBase58Data.data := p;
                  CBase58Data.nVersion := CBase58Data.bord v |}
       else Raise Base58ChecksumError.
Proof.
  intros Hc Hd check. split.
  - rewrite from_bytes_spec.
    assert (Hv : (0 <= CBase58Data.bord v <= 255)%Z).
    { unfold CBase58Data.bord. pose proof (Byte.to_N_bounded v). lia. }
    destruct (Z.leb_spec 0 (CBase58Data.bord v)); [|lia].
    destruct (Z.leb_spec (CBase58Data.bord v) 255); [|lia].
    cbn [andb bind]. apply str_spec.
  - exact (new_of_envelope (core_Hash digest) s v p c Hd Hc).
Qed.

Lemma checksum_double_hash_witness :
  length [x05; x05; x05; x05] = 4%nat /\
  decode (lit "3VXYMuyv") = Ok (x05 :: [x01] ++ [x05; x05; x05; x05]) /\
  CBase58Data.__new__ (core_Hash sample_digest) (lit "3VXYMuyv")
  = Ok {| CBase58Data.data := [x01]; CBase58Data.nVersion := 5 |}.
Proof.
  split; [reflexivity|]. split; [vm_compute; reflexivity|].
  apply (checksum_double_hash sample_digest x05 [x01] [x05; x05; x05; x05]
                              (lit "3VXYMuyv")).
  - reflexivity.
  - vm_compute. reflexivity.
Defined.

(** C5, as the code has it. For every non-empty string [s] of alphabet
    characters, [decode s] is as many zero bytes as [s] without its final
    character has leading ['1'] characters, followed by the bytes of the
    accumulated integer [n]: its minimal big-endian bytes when [n > 0],
    and the single byte 00 when [n = 0]. *)
Theorem decode_value (s : str) :
  s <> [] ->
  Forall (fun c => In c b58_digits) s ->
  decode s
  = Ok (repeat x00 (count_pad Ascii.eqb "1"%char (removelast s))
        ++ (if b58_value s =? 0 then [x00]
            else minimal_be_bytes (b58_value s))).
Proof.
  intros Hs Hall. rewrite decode_nonempty by assumption.
  rewrite (proj2 (forallb_alphabet s) Hall), slice_init_removelast.
  reflexivity.
Qed.

Lemma decode_value_witness :
  lit "118" <> [] /\
  Forall (fun c => In c b58_digits) (lit "118") /\
  decode (lit "118") = Ok [x00; x00; x07].
Proof.
  assert (Hs : lit "118" <> []) by discriminate.
  assert (Hall : Forall (fun c => In c b58_digits) (lit "118")).
  { apply forallb_alphabet. vm_compute. reflexivity. }
  split; [exact Hs|]. split; [exact Hall|].
  exact (decode_value (lit "118") Hs Hall).
Defined.

(** C5, as stated, fails: ["1"] is a non-empty string of alphabet
    characters whose accumulated integer is 0 and which has no character
    before its final one; the claim gives no bytes at all, [decode] gives
    the byte 00. *)
Lemma decode_value_counterexample :
  lit "1" <> [] /\
  Forall (fun c => In c b58_digits) (lit "1") /\
  b58_value (lit "1") = 0 /\
  decode (lit "1") = Ok [x00] /\
  decode (lit "1")
  <> Ok (repeat x00 (count_pad Ascii.eqb "1"%char (removelast (lit "1")))
         ++ minimal_be_bytes (b58_value (lit "1"))).
Proof.
  split; [discriminate|].
  split; [apply forallb_alphabet; vm_compute; reflexivity|].
  split; [reflexivity|]. split; [vm_compute; reflexivity|].
  vm_compute. discriminate.
Qed.

(** C6. [decode s] raises exactly when [s] has a character outside the
    alphabet, and then it raises [InvalidBase58Error]; on every other
    string it returns; no other error leaves it. In particular
    [decode "0"] raises [InvalidBase58Error]. *)
Theorem decode_error (s : str) :
  (decode s = Raise InvalidBase58Error
   <-> exists c, In c s /\ ~ In c b58_digits)
  /\ ((exists b, decode s = Ok b)
      <-> Forall (fun c => In c b58_digits) s)
  /\ (decode s = Raise InvalidBase58Error \/ exists b, decode s = Ok b)
  /\ decode (lit "0") = Raise InvalidBase58Error.
Proof.
  destruct (decode_cases s) as [[Hall [b Hb]]|[Hall Hr]].
  - pose proof (proj1 (forallb_alphabet s) Hall) as HF.
    split; [|split; [|split]].
    + split; [rewrite Hb; discriminate|].
      intros (c & Hc & Hn). rewrite Forall_forall in HF.
      exfalso. apply Hn, HF, Hc.
    + split; [intros _; exact HF|intros _; exists b; exact Hb].
    + right. exists b. exact Hb.
    + reflexivity.
  - destruct (forallb_false_In _ _ Hall) as (c & Hc & Hf).
    assert (Hn : ~ In c b58_digits).
    { intros Hin. apply str_contains_In in Hin. congruence. }
    split; [|split; [|split]].
    + split; [intros _; exists c; auto|intros _; exact Hr].
    + split.
      * intros [b Hb]. rewrite Hr in Hb. discriminate.
      * intros HF. rewrite Forall_forall in HF. exfalso. apply Hn, HF, Hc.
    + left. exact Hr.
    + reflexivity.
Qed.

(** C7. [from_bytes] raises [ValueError] exactly when the version is
    outside [0,255], and returns the instance when it is inside; 256 and
    -1 are both refused. *)
Theorem from_bytes_version (data : bytes) (v : Z) :
  (CBase58Data.from_bytes data v = Raise ValueError
   <-> ~ (0 <= v <= 255)%Z)
  /\ (CBase58Data.from_bytes data v
      = Ok {| CBase58Data.data := data; CBase58Data.nVersion := v |}
      <-> (0 <= v <= 255)%Z)
  /\ CBase58Data.from_bytes data 256 = Raise ValueError
  /\ CBase58Data.from_bytes data (-1) = Raise ValueError.
Proof.
  rewrite from_bytes_spec.
  destruct (Z.leb_spec 0 v); destruct (Z.leb_spec v 255); cbn [andb];
    (split; [|split; [|split; reflexivity]]);
    split; intros; try discriminate; try reflexivity; try lia.
Qed.

(** C8. For a byte string made of [k] zero bytes followed by a rest that
    does not start with a zero byte, [encode] returns [k] times ['1']
    followed by the base-58 numeral of the big-endian value: a string of
    alphabet characters that denotes that value, does not start with
    ['1'], and is empty exactly when the rest is, that is when there is
    no non-zero byte. *)
Theorem encode_leading_zeros (k : nat) (rest : bytes) :
  hd_error rest <> Some x00 ->
  exists ds,
    encode (repeat x00 k ++ rest) = Ok (repeat "1"%char k ++ ds)
    /\ ds = b58_numeral (be_value (repeat x00 k ++ rest))
    /\ Forall (fun c => In c b58_digits) ds
    /\ b58_value ds = be_value (repeat x00 k ++ rest)
    /\ hd_error ds <> Some "1"%char
    /\ (ds = [] <-> rest = []).
Proof.
  intros Hr. set (n := be_value (repeat x00 k ++ rest)).
  exists (b58_numeral n).
  destruct (b58_value_padded 0 n) as [Hall Hval]. cbn [repeat app] in *.
  split; [|split; [reflexivity|split; [|split; [|split]]]].
  - rewrite encode_spec. fold n.
    rewrite count_pad_repeat by apply byte_eqb_refl.
    rewrite (count_pad_hd Byte.eqb x00 rest), Nat.add_0_r; [reflexivity|].
    intros c Hc. apply byte_eqb_neq. congruence.
  - apply forallb_alphabet. exact Hall.
  - exact Hval.
  - intros Hh. apply b58_numeral_hd in Hh. discriminate.
  - unfold n. rewrite be_value_pad. split.
    + intros E. apply be_value_zero; [assumption|].
      destruct (N.eq_dec (be_value rest) 0) as [|Hn]; [assumption|].
      rewrite b58_numeral_pos in E by lia.
      apply app_eq_nil in E. destruct E as [_ E]. discriminate.
    + intros ->. reflexivity.
Qed.

Lemma encode_leading_zeros_witness :
  hd_error [x07] <> Some x00 /\
  exists ds,
    encode (repeat x00 2 ++ [x07]) = Ok (repeat "1"%char 2 ++ ds)
    /\ ds = b58_numeral (be_value (repeat x00 2 ++ [x07]))
    /\ Forall (fun c => In c b58_digits) ds
    /\ b58_value ds = be_value (repeat x00 2 ++ [x07])
    /\ hd_error ds <> Some "1"%char
    /\ (ds = [] <-> [x07] = []).
Proof.
  assert (H : hd_error [x07] <> Some x00) by discriminate.
  split; [exact H|]. exact (encode_leading_zeros 2 [x07] H).
Defined.

(** C9. For every [k >= 1], [decode] of [k] times ['1'] returns exactly
    [k] zero bytes: the scan of the string without its final character
    counts [k - 1], and the accumulated integer 0 is rendered as the
    single byte 00. *)
Theorem decode_ones (k : nat) :
  (1 <= k)%nat ->
  decode (repeat "1"%char k) = Ok (repeat x00 k)
  /\ count_pad Ascii.eqb "1"%char
               (slice None (Some (-1)%Z) (repeat "1"%char k)) = (k - 1)%nat
  /\ int_to_bytes (b58_value (repeat "1"%char k)) = Ok [x00].
Proof.
  intros Hk. destruct k as [|k]; [lia|].
  split; [|split].
  - pose proof (decode_padded_numeral (S k) 0) as H.
    change (b58_numeral 0) with (@nil ascii) in H.
    change (minimal_be_bytes 0) with (@nil byte) in H.
    rewrite !app_nil_r in H. exact H.
  - cbn [repeat]. rewrite (repeat_cons k "1"%char), slice_init.
    rewrite <- (app_nil_r (repeat "1"%char k)).
    rewrite count_pad_repeat by reflexivity. cbn. lia.
  - destruct (b58_value_padded (S k) 0) as [_ Hv].
    change (b58_numeral 0) with (@nil ascii) in Hv.
    rewrite app_nil_r in Hv. change (b58char 0) with "1"%char in Hv.
    rewrite Hv. reflexivity.
Qed.

Lemma decode_ones_witness :
  (1 <= 3)%nat /\ decode (lit "111") = Ok [x00; x00; x00].
Proof.
  split; [lia|]. apply (decode_ones 3). lia.
Defined.

(** C10. With a hash of 32-byte output, parsing the empty string raises
    [Base58ChecksumError]: [decode] yields no bytes, the claimed checksum
    is empty and differs from the four computed bytes, and the error
    leaves before the version byte is indexed. *)
Theorem new_empty (Hash : bytes -> bytes) :
  (forall m, length (Hash m) = 32%nat) ->
  decode [] = Ok []
  /\ slice (Some (-4)%Z) None (@nil byte) = []
  /\ length (slice None (Some 4%Z) (Hash [])) = 4%nat
  /\ CBase58Data.__new__ Hash [] = Raise Base58ChecksumError.
Proof.
  intros Hlen. split; [reflexivity|]. split; [reflexivity|]. split.
  - rewrite slice_none_4. apply checksum_length. assumption.
  - apply (new_of_short_lt4 Hash Hlen [] []); [reflexivity|cbn; lia].
Qed.

Lemma new_empty_witness :
  (forall m, length (sample_digest m) = 32%nat) /\
  CBase58Data.__new__ sample_digest [] = Raise Base58ChecksumError.
Proof.
  split; [intros m; reflexivity|].
  apply (new_empty sample_digest). intros m. reflexivity.
Defined.

(** * The codec as a bijection *)

Lemma alphabet_char (c : ascii) :
  In c b58_digits -> exists r, r < 58 /\ c = b58char r.
Proof.
  intros Hc. destruct (In_nth _ _ "1"%char Hc) as (n & Hn & E).
  change (length b58_digits) with 58%nat in Hn.
  exists (N.of_nat n). split; [lia|].
  unfold b58char. rewrite Nat2N.id. symmetry. exact E.
Qed.

Lemma b58char_of_index (c : ascii) :
  In c b58_digits -> b58char (b58_index c) = c /\ b58_index c < 58.
Proof.
  intros Hc. destruct (alphabet_char c Hc) as (r & Hr & ->).
  rewrite b58_index_char by assumption. split; [reflexivity|assumption].
Qed.

Lemma map_b58char_index (s : str) :
  Forall (fun c => In c b58_digits) s ->
  map b58char (map b58_index s) = s /\
  Forall (fun d => d < 58) (map b58_index s).
Proof.
  induction 1 as [|c s Hc _ [IH1 IH2]]; [split; [reflexivity|constructor]|].
  destruct (b58char_of_index c Hc) as [E Hlt].
  cbn [map]. rewrite E, IH1. split; [reflexivity|constructor; assumption].
Qed.

(** A string of alphabet characters that does not start with ['1'] is the
    numeral of the integer it denotes. *)
Lemma b58_numeral_value (t : str) :
  Forall (fun c => In c b58_digits) t -> hd_error t <> Some "1"%char ->
  b58_numeral (b58_value t) = t.
Proof.
  intros Hall Hh. destruct (map_b58char_index t Hall) as [E Hb].
  unfold b58_numeral, b58_value.
  rewrite digits_be_horner; [exact E|lia|exact Hb|].
  destruct t as [|c t]; [discriminate|].
  cbn. intros [= H0]. apply Hh. cbn. f_equal.
  inversion Hall as [|? ? Hc _]; subst.
  destruct (b58char_of_index c Hc) as [Ec _]. rewrite H0 in Ec.
  symmetry. exact Ec.
Qed.

Lemma split_ones (s : str) :
  exists t,
    s = repeat "1"%char (count_pad Ascii.eqb "1"%char s) ++ t /\
    hd_error t <> Some "1"%char.
Proof.
  induction s as [|c s (t & Hs & Ht)].
  - exists []. split; [reflexivity|discriminate].
  - cbn [count_pad]. destruct (Ascii.eqb_spec c "1"%char) as [->|Hc].
    + exists t. split; [|assumption]. cbn [repeat app]. f_equal. assumption.
    + exists (c :: s). split; [reflexivity|]. cbn. congruence.
Qed.

Lemma b58_value_ones (k : nat) (t : str) :
  b58_value (repeat "1"%char k ++ t) = b58_value t.
Proof.
  unfold b58_value. rewrite map_app, map_repeat. apply horner_zeros.
Qed.

(** Every string of alphabet characters is canonical: its leading ['1']
    characters, then the numeral of the integer it denotes. *)
Lemma alphabet_canonical (s : str) :
  Forall (fun c => In c b58_digits) s ->
  s = repeat (b58char 0) (count_pad Ascii.eqb "1"%char s)
      ++ b58_numeral (b58_value s).
Proof.
  intros Hall. destruct (split_ones s) as (t & Hs & Ht).
  set (k := count_pad Ascii.eqb "1"%char s) in *.
  rewrite Hs at 1 2. rewrite b58_value_ones.
  change (b58char 0) with "1"%char. f_equal. symmetry.
  apply b58_numeral_value; [|assumption].
  rewrite Hs in Hall. apply Forall_app in Hall. apply Hall.
Qed.

Lemma minimal_be_bytes_hd (n : N) : hd_error (minimal_be_bytes n) <> Some x00.
Proof.
  assert (H256 : 2 <= 256) by lia.
  pose proof (digits_be_hd 256 H256 n) as Hh.
  pose proof (digits_be_bounded 256 H256 n) as Hb.
  unfold minimal_be_bytes. destruct (digits_be 256 n) as [|d ds]; [discriminate|].
  cbn. intros [= E]. inversion Hb as [|? ? Hd _]; subst.
  apply Hh. cbn. f_equal.
  rewrite <- (byte_of_N_to_N d Hd), E. reflexivity.
Qed.

Lemma be_value_minimal (n : N) : be_value (minimal_be_bytes n) = n.
Proof.
  assert (H256 : 2 <= 256) by lia.
  pose proof (digits_be_bounded 256 H256 n) as Hb.
  unfold be_value, minimal_be_bytes.
  replace (map Byte.to_N (map byte_of_N (digits_be 256 n)))
    with (digits_be 256 n); [apply horner_digits_be; assumption|].
  induction Hb as [|d ds Hd _ IH]; [reflexivity|].
  cbn [map]. rewrite byte_of_N_to_N by assumption. f_equal. exact IH.
Qed.

Lemma encode_padded_minimal (k : nat) (n : N) :
  encode (repeat x00 k ++ minimal_be_bytes n)
  = Ok (repeat (b58char 0) k ++ b58_numeral n).
Proof.
  rewrite encode_spec, be_value_pad, be_value_minimal.
  rewrite count_pad_repeat by apply byte_eqb_refl.
  rewrite (count_pad_hd Byte.eqb x00 (minimal_be_bytes n)), Nat.add_0_r;
    [reflexivity|].
  intros c Hc. apply byte_eqb_neq. intros ->.
  exact (minimal_be_bytes_hd n Hc).
Qed.

(** The closed form of [decode] on a string of alphabet characters, and
    the way back. *)
Lemma decode_alphabet (s : str) :
  Forall (fun c => In c b58_digits) s ->
  let b := repeat x00 (count_pad Ascii.eqb "1"%char s)
           ++ minimal_be_bytes (b58_value s) in
  decode s = Ok b /\ encode b = Ok s.
Proof.
  intros Hall b. pose proof (alphabet_canonical s Hall) as Hs.
  split.
  - rewrite Hs at 1. apply decode_padded_numeral.
  - unfold b. rewrite encode_padded_minimal. f_equal. symmetry. exact Hs.
Qed.

Lemma decode_ok_alphabet (s : str) (b : bytes) :
  decode s = Ok b -> Forall (fun c => In c b58_digits) s.
Proof.
  intros Hd. destruct (decode_cases s) as [[Hall _]|[_ Hr]].
  - apply forallb_alphabet. exact Hall.
  - rewrite Hr in Hd. discriminate.
Qed.

Lemma encode_of_decode (s : str) (b : bytes) :
  decode s = Ok b -> encode b = Ok s.
Proof.
  intros Hd. pose proof (decode_ok_alphabet s b Hd) as Hall.
  destruct (decode_alphabet s Hall) as [Hd' He].
  rewrite Hd' in Hd. injection Hd as <-. exact He.
Qed.

Lemma encode_ok_alphabet (b : bytes) :
  exists s, encode b = Ok s /\ Forall (fun c => In c b58_digits) s.
Proof.
  destruct (decode_encode_bytes b) as (s & He & Hd).
  exists s. split; [exact He|]. exact (decode_ok_alphabet s b Hd).
Qed.

(** * Lengths *)

Section DigitCount.
Variable B : N.
Hypothesis B_ge_2 : 2 <= B.

Lemma digits_length_le (L : nat) :
  forall n : N, n < B ^ N.of_nat L -> (length (digits_be B n) <= L)%nat.
Proof.
  induction L as [|L IH]; intros n Hn.
  - cbn in Hn. assert (n = 0) by lia. subst n. cbn. lia.
  - destruct (N.eq_dec n 0) as [->|Hpos]; [cbn; lia|].
    rewrite (digits_be_pos B B_ge_2) by lia.
    rewrite length_app. cbn [length].
    assert (Hq : n / B < B ^ N.of_nat L).
    { apply N.Div0.div_lt_upper_bound.
      rewrite Nat2N.inj_succ, N.pow_succ_r' in Hn. exact Hn. }
    specialize (IH _ Hq). lia.
Qed.

Lemma digits_length_gt (L : nat) :
  forall n : N, B ^ N.of_nat L <= n -> (L < length (digits_be B n))%nat.
Proof.
  induction L as [|L IH]; intros n Hn.
  - cbn in Hn. rewrite (digits_be_pos B B_ge_2) by lia.
    rewrite length_app. cbn [length]. lia.
  - rewrite Nat2N.inj_succ, N.pow_succ_r' in Hn.
    assert (Hp : 0 < B ^ N.of_nat L).
    { apply N.neq_0_lt_0, N.pow_nonzero. lia. }
    rewrite (digits_be_pos B B_ge_2) by nia.
    rewrite length_app. cbn [length].
    assert (Hq : B ^ N.of_nat L <= n / B).
    { apply N.div_le_lower_bound; [lia|exact Hn]. }
    specialize (IH _ Hq). lia.
Qed.
End DigitCount.

(** A number has at least as many digits in base 58 as in base 256. *)
Lemma digits_58_256 (n : N) :
  (length (digits_be 256 n) <= length (digits_be 58 n))%nat.
Proof.
  destruct (length (digits_be 256 n)) as [|m] eqn:E; [lia|].
  assert (H : 256 ^ N.of_nat m <= n).
  { destruct (N.le_gt_cases (256 ^ N.of_nat m) n) as [|Hlt]; [assumption|].
    pose proof (digits_length_le 256 ltac:(lia) m n Hlt). lia. }
  assert (H58 : 58 ^ N.of_nat m <= n).
  { apply N.le_trans with (256 ^ N.of_nat m); [|assumption].
    apply N.pow_le_mono_l. lia. }
  pose proof (digits_length_gt 58 ltac:(lia) m n H58). lia.
Qed.

Lemma encode_length (b : bytes) (s : str) :
  encode b = Ok s -> (length b <= length s)%nat.
Proof.
  rewrite encode_spec. intros [= <-].
  destruct (split_pad b) as (rest & Hb & Hr).
  rewrite Hb at 1. rewrite Hb at 3. rewrite be_value_pad.
  rewrite <- (minimal_be_bytes_value rest Hr) at 1.
  rewrite !length_app, !repeat_length.
  unfold minimal_be_bytes, b58_numeral. rewrite !length_map.
  pose proof (digits_58_256 (be_value rest)). lia.
Qed.

Lemma digits_value_lt (B : N) (n : N) :
  2 <= B -> n < B ^ N.of_nat (length (digits_be B n)).
Proof.
  intros HB.
  destruct (N.le_gt_cases (B ^ N.of_nat (length (digits_be B n))) n)
    as [Hle|Hlt]; [|assumption].
  pose proof (digits_length_gt B HB _ n Hle). lia.
Qed.

(** A number has at most twice as many digits in base 58 as in base 256. *)
Lemma digits_58_twice (n : N) :
  (length (digits_be 58 n) <= 2 * length (digits_be 256 n))%nat.
Proof.
  apply (digits_length_le 58 ltac:(lia)).
  apply N.lt_le_trans with (256 ^ N.of_nat (length (digits_be 256 n)));
    [apply digits_value_lt; lia|].
  rewrite Nat2N.inj_mul, N.pow_mul_r.
  apply N.pow_le_mono_l. cbn. lia.
Qed.

Lemma encode_length_upper (b : bytes) (s : str) :
  encode b = Ok s -> (length s <= 2 * length b)%nat.
Proof.
  rewrite encode_spec. intros [= <-].
  destruct (split_pad b) as (rest & Hb & Hr).
  rewrite Hb at 2. rewrite Hb at 3. rewrite be_value_pad.
  rewrite <- (minimal_be_bytes_value rest Hr) at 2.
  rewrite !length_app, !repeat_length.
  unfold minimal_be_bytes, b58_numeral. rewrite !length_map.
  pose proof (digits_58_twice (be_value rest)). lia.
Qed.

(** * More on the envelope *)

Section EnvelopeMore.
Variable Hash : bytes -> bytes.

Lemma new_unfold (s : str) (k : bytes) :
  decode s = Ok k ->
  CBase58Data.__new__ Hash s =
  if list_eqb Byte.eqb (skipn (length k - 4) k)
       (firstn 4 (Hash (firstn 1 k ++ firstn (length k - 4 - 1) (skipn 1 k))))
  then v <- getitem (firstn 1 k) 0 ;;
       Ok {| CBase58Data.data := firstn (length k - 4 - 1) (skipn 1 k);
             CBase58Data.nVersion := CBase58Data.bord v |}
  else Raise Base58ChecksumError.
Proof.
  intros Hd. unfold CBase58Data.__new__. rewrite Hd. cbn [bind].
  rewrite slice_0_1, slice_middle, slice_last4, slice_none_4.
  destruct (list_eqb Byte.eqb _ _); reflexivity.
Qed.

Lemma envelope_parts (k : bytes) :
  (5 <= length k)%nat ->
  exists v p c, k = v :: p ++ c /\ length c = 4%nat.
Proof.
  intros Hk. destruct k as [|v k]; [cbn in Hk; lia|]. cbn [length] in Hk.
  exists v, (firstn (length k - 4) k), (skipn (length k - 4) k).
  split; [rewrite firstn_skipn; reflexivity|].
  rewrite length_skipn. lia.
Qed.

Lemma bord_range (v : byte) : (0 <= CBase58Data.bord v <= 255)%Z.
Proof.
  unfold CBase58Data.bord. pose proof (Byte.to_N_bounded v). lia.
Qed.

Lemma bord_inj (v w : byte) : CBase58Data.bord v = CBase58Data.bord w -> v = w.
Proof.
  unfold CBase58Data.bord. intros E. apply N2Z.inj in E.
  rewrite <- (byte_of_N_of_to v), <- (byte_of_N_of_to w), E. reflexivity.
Qed.

(** What [__new__] accepts from a decoding of at least five bytes. *)
Lemma new_ok_envelope (s : str) (k : bytes) (r : CBase58Data.t) :
  decode s = Ok k -> (5 <= length k)%nat ->
  CBase58Data.__new__ Hash s = Ok r ->
  exists v,
    r = {| CBase58Data.data := CBase58Data.data r;
           CBase58Data.nVersion := CBase58Data.bord v |}
    /\ k = v :: CBase58Data.data r
           ++ firstn 4 (Hash (v :: CBase58Data.data r)).
Proof.
  intros Hd Hk Hn. destruct (envelope_parts k Hk) as (v & p & c & -> & Hc).
  rewrite (new_of_envelope Hash s v p c Hd Hc) in Hn.
  destruct (list_eqb Byte.eqb c (firstn 4 (Hash (v :: p)))) eqn:E;
    [|discriminate].
  apply list_eqb_bytes in E. injection Hn as <-. cbn.
  exists v. split; [reflexivity|]. rewrite E. reflexivity.
Qed.

Lemma str_cases (r : CBase58Data.t) :
  ((0 <= CBase58Data.nVersion r <= 255)%Z /\
   CBase58Data.__str__ Hash r =
   encode (byte_of_N (Z.to_N (CBase58Data.nVersion r)) :: CBase58Data.data r
           ++ firstn 4 (Hash (byte_of_N (Z.to_N (CBase58Data.nVersion r))
                              :: CBase58Data.data r))))
  \/ (~ (0 <= CBase58Data.nVersion r <= 255)%Z /\
      CBase58Data.__str__ Hash r = Raise ValueError).
Proof.
  destruct r as [p v]. cbn [CBase58Data.nVersion CBase58Data.data].
  destruct (Z_le_dec 0 v) as [H0|H0]; [destruct (Z_le_dec v 255) as [H1|H1]|].
  - left. split; [lia|].
    destruct (bord_bchr v (conj H0 H1)) as [_ Hb].
    rewrite <- Hb at 1. apply str_spec.
  - right. split; [lia|]. unfold CBase58Data.__str__, CBase58Data.bchr.
    cbn [CBase58Data.nVersion].
    destruct (Z.leb_spec v 255); [lia|]. rewrite andb_false_r. reflexivity.
  - right. split; [lia|]. unfold CBase58Data.__str__, CBase58Data.bchr.
    cbn [CBase58Data.nVersion].
    destruct (Z.leb_spec 0 v); [lia|]. reflexivity.
Qed.

Lemma new_version_range (s : str) (r : CBase58Data.t) :
  CBase58Data.__new__ Hash s = Ok r ->
  (0 <= CBase58Data.nVersion r <= 255)%Z.
Proof.
  unfold CBase58Data.__new__. destruct (decode s) as [k|e]; [|discriminate].
  cbn [bind]. destruct (negb _); [discriminate|].
  destruct (getitem _ 0) as [v|e]; [|discriminate].
  cbn [bind]. intros [= <-]. apply bord_range.
Qed.

Lemma app_inj_length {A : Type} (p1 p2 c1 c2 : list A) :
  p1 ++ c1 = p2 ++ c2 -> length c1 = length c2 -> p1 = p2 /\ c1 = c2.
Proof.
  intros E Hc.
  assert (Hl : length p1 = length p2).
  { apply (f_equal (@length A)) in E. rewrite !length_app in E. lia. }
  revert p2 E Hl. induction p1 as [|x p1 IH]; intros [|y p2] E Hl;
    try discriminate.
  - split; [reflexivity|exact E].
  - cbn in E. injection E as -> E. injection Hl as Hl.
    destruct (IH p2 E Hl) as [-> ->]. split; reflexivity.
Qed.
End EnvelopeMore.

(** * [repr] of an encoded string *)

Lemma repr_char_alphabet (r : N) :
  r < 58 ->
  repr_char squote (b58char r) = [b58char r] /\
  Ascii.eqb (b58char r) squote = false.
Proof.
  intros H. rewrite <- (N2Nat.id r).
  assert (Hk : (N.to_nat r < 58)%nat) by lia.
  generalize dependent (N.to_nat r). intros k Hk.
  do 58 (destruct k as [|k]; [split; reflexivity|]). lia.
Qed.

Lemma repr_str_alphabet (s : str) :
  Forall (fun c => In c b58_digits) s ->
  repr_str s = [squote] ++ s ++ [squote].
Proof.
  intros Hall. unfold repr_str.
  assert (Hq : str_contains s squote = false /\
               flat_map (repr_char squote) s = s).
  { induction Hall as [|c s Hc _ [IH1 IH2]]; [split; reflexivity|].
    destruct (alphabet_char c Hc) as (r & Hr & ->).
    destruct (repr_char_alphabet r Hr) as [E1 E2].
    split.
    - unfold str_contains in *. cbn [existsb].
      rewrite Ascii.eqb_sym, E2. exact IH1.
    - cbn [flat_map]. rewrite E1, IH2. reflexivity. }
  destruct Hq as [Hq1 Hq2]. rewrite Hq1. cbn [andb]. rewrite Hq2. reflexivity.
Qed.

Lemma encode_cons_zero (b : bytes) :
  encode (x00 :: b) = (s <- encode b ;; Ok ("1"%char :: s)).
Proof.
  rewrite !encode_spec. cbn [bind].
  change (x00 :: b) with (repeat x00 1 ++ b) at 2. rewrite be_value_pad.
  reflexivity.
Qed.

Lemma decode_bad_char (s : str) :
  (exists c, In c s /\ ~ In c b58_digits) <->
  decode s = Raise InvalidBase58Error.
Proof.
  destruct (decode_cases s) as [[Hall [b Hb]]|[Hall Hr]].
  - split; [|rewrite Hb; discriminate].
    intros (c & Hc & Hn). exfalso. apply Hn.
    apply forallb_alphabet in Hall. rewrite Forall_forall in Hall. auto.
  - split; [intros _; exact Hr|]. intros _.
    destruct (forallb_false_In _ _ Hall) as (c & Hc & Hf).
    exists c. split; [assumption|]. intros Hin.
    apply str_contains_In in Hin. congruence.
Qed.

Lemma encode_injective_bytes (b1 b2 : bytes) :
  encode b1 = encode b2 -> b1 = b2.
Proof.
  destruct (decode_encode_bytes b1) as (s1 & He1 & Hd1).
  destruct (decode_encode_bytes b2) as (s2 & He2 & Hd2).
  rewrite He1, He2. intros [= ->]. rewrite Hd1 in Hd2. congruence.
Qed.

Lemma new_str_roundtrip (Hash : bytes -> bytes) (s : str) (k : bytes)
      (r : CBase58Data.t) :
  decode s = Ok k -> (5 <= length k)%nat ->
  CBase58Data.__new__ Hash s = Ok r ->
  CBase58Data.__str__ Hash r = Ok s.
Proof.
  intros Hd Hk Hn.
  destruct (new_ok_envelope Hash s k r Hd Hk Hn) as (v & Hr & Hk').
  rewrite Hr, str_spec, <- Hk'. apply encode_of_decode. exact Hd.
Qed.

(** * Further properties of the module *)

(** X1. The other round trip: every string of alphabet characters is
    decoded to bytes that [encode] turns back into that very string, also
    when it is all ['1'] or has more ['1'] in front than digits after. *)
Theorem encode_decode (s : str) :
  Forall (fun c => In c b58_digits) s ->
  (b <- decode s ;; encode b) = Ok s.
Proof.
  intros Hall. destruct (decode_alphabet s Hall) as [-> He]. exact He.
Qed.

Lemma encode_decode_witness :
  Forall (fun c => In c b58_digits) (lit "111z2") /\
  (b <- decode (lit "111z2") ;; encode b) = Ok (lit "111z2").
Proof.
  assert (H : Forall (fun c => In c b58_digits) (lit "111z2")).
  { apply forallb_alphabet. vm_compute. reflexivity. }
  split; [exact H|]. exact (encode_decode (lit "111z2") H).
Defined.

(** X2. [encode] is injective: two byte strings have the same encoding
    only when they are equal. *)
Theorem encode_injective (b1 b2 : bytes) :
  encode b1 = encode b2 <-> b1 = b2.
Proof.
  split; [apply encode_injective_bytes|intros ->; reflexivity].
Qed.

(** X3. [decode] is injective where it returns: two strings decoded to
    the same bytes are equal, so no byte string has a second spelling. *)
Theorem decode_injective (s1 s2 : str) (b : bytes) :
  decode s1 = Ok b -> decode s2 = Ok b -> s1 = s2.
Proof.
  intros H1 H2. apply encode_of_decode in H1, H2. congruence.
Qed.

Lemma decode_injective_witness :
  decode (lit "12") = Ok [x00; x01] /\ lit "12" = lit "12".
Proof.
  assert (H : decode (lit "12") = Ok [x00; x01]) by (vm_compute; reflexivity).
  split; [exact H|]. exact (decode_injective (lit "12") (lit "12") _ H H).
Defined.

(** X4. [encode] returns, for every byte string, a string made of
    alphabet characters only. *)
Theorem encode_alphabet (b : bytes) :
  exists s, encode b = Ok s /\ Forall (fun c => In c b58_digits) s.
Proof. apply encode_ok_alphabet. Qed.

(** X5. One more zero byte in front of the input puts one more ['1'] in
    front of the encoding. *)
Theorem encode_zero_byte (b : bytes) :
  encode (x00 :: b) = (s <- encode b ;; Ok ("1"%char :: s)).
Proof. apply encode_cons_zero. Qed.

(** X6. One more ['1'] in front of a string puts one more zero byte in
    front of what [decode] returns, and changes nothing to its raising;
    this holds for the empty string and for strings of ['1'] too. *)
Theorem decode_one_char (s : str) :
  decode ("1"%char :: s) = (b <- decode s ;; Ok (x00 :: b)).
Proof.
  destruct (decode_cases s) as [[Hall [b Hb]]|[Hall Hr]].
  - rewrite Hb. cbn [bind].
    pose proof (encode_of_decode s b Hb) as He.
    destruct (decode_encode_bytes (x00 :: b)) as (s' & He' & Hd').
    rewrite encode_cons_zero, He in He'. cbn [bind] in He'.
    injection He' as <-. exact Hd'.
  - rewrite Hr. cbn [bind]. apply decode_bad_char.
    destruct (proj2 (decode_bad_char s) Hr) as (c & Hc & Hn).
    exists c. split; [right; assumption|assumption].
Qed.

(** X7. On a string of alphabet characters [decode] returns exactly as
    many leading zero bytes as the string has leading ['1'] characters:
    leaving the final character out of the scan never loses one. *)
Theorem decode_leading_zeros (s : str) :
  Forall (fun c => In c b58_digits) s ->
  exists b,
    decode s = Ok b /\
    count_pad Byte.eqb x00 b = count_pad Ascii.eqb "1"%char s.
Proof.
  intros Hall. destruct (decode_alphabet s Hall) as [Hd _].
  eexists. split; [exact Hd|].
  rewrite count_pad_repeat by apply byte_eqb_refl.
  rewrite (count_pad_hd Byte.eqb x00 (minimal_be_bytes (b58_value s)));
    [apply Nat.add_0_r|].
  intros c Hc. apply byte_eqb_neq. intros ->.
  exact (minimal_be_bytes_hd _ Hc).
Qed.

Lemma decode_leading_zeros_witness :
  Forall (fun c => In c b58_digits) (lit "1112") /\
  exists b,
    decode (lit "1112") = Ok b /\
    count_pad Byte.eqb x00 b = count_pad Ascii.eqb "1"%char (lit "1112").
Proof.
  assert (H : Forall (fun c => In c b58_digits) (lit "1112")).
  { apply forallb_alphabet. vm_compute. reflexivity. }
  split; [exact H|]. exact (decode_leading_zeros (lit "1112") H).
Defined.

(** X8. The bytes [decode] returns denote, as a big-endian integer, the
    integer the string denotes in base 58. *)
Theorem decode_be_value (s : str) (b : bytes) :
  decode s = Ok b -> be_value b = b58_value s.
Proof.
  intros Hd. pose proof (decode_ok_alphabet s b Hd) as Hall.
  destruct (decode_alphabet s Hall) as [Hd' _].
  rewrite Hd' in Hd. injection Hd as <-.
  rewrite be_value_pad. apply be_value_minimal.
Qed.

Lemma decode_be_value_witness :
  decode (lit "1z2") = Ok [x00; x0c; xeb] /\
  be_value [x00; x0c; xeb] = b58_value (lit "1z2").
Proof.
  assert (H : decode (lit "1z2") = Ok [x00; x0c; xeb])
    by (vm_compute; reflexivity).
  split; [exact H|]. exact (decode_be_value _ _ H).
Defined.

(** X9. The encoding is never shorter than the input and at most twice
    as long: at least one character a byte, at most two. *)
Theorem encode_never_shorter (b : bytes) :
  exists s,
    encode b = Ok s /\
    (length b <= length s)%nat /\ (length s <= 2 * length b)%nat.
Proof.
  destruct (decode_encode_bytes b) as (s & He & _).
  exists s. split; [exact He|].
  split; [exact (encode_length b s He)|exact (encode_length_upper b s He)].
Qed.

(** X10. What [decode] returns is never longer than the string, and never
    shorter than half of it: at most one byte a character, at least one
    byte for two characters. *)
Theorem decode_never_longer (s : str) (b : bytes) :
  decode s = Ok b ->
  (length b <= length s)%nat /\ (length s <= 2 * length b)%nat.
Proof.
  intros Hd. apply encode_of_decode in Hd.
  split; [exact (encode_length b s Hd)|exact (encode_length_upper b s Hd)].
Qed.

Lemma decode_never_longer_witness :
  decode (lit "1z2") = Ok [x00; x0c; xeb] /\
  (length [x00; x0c; xeb] <= length (lit "1z2"))%nat /\
  (length (lit "1z2") <= 2 * length [x00; x0c; xeb])%nat.
Proof.
  assert (H : decode (lit "1z2") = Ok [x00; x0c; xeb])
    by (vm_compute; reflexivity).
  split; [exact H|]. exact (decode_never_longer _ _ H).
Defined.

(** X11. [__new__] raises [InvalidBase58Error] exactly when the string
    has a character outside the alphabet, whatever the hash: the error of
    [decode] leaves unchanged, and nothing else is reported under that
    name. *)
Theorem new_invalid_char (Hash : bytes -> bytes) (s : str) :
  CBase58Data.__new__ Hash s = Raise InvalidBase58Error
  <-> exists c, In c s /\ ~ In c b58_digits.
Proof.
  rewrite decode_bad_char.
  destruct (decode s) as [k|e] eqn:Hd.
  - rewrite (new_unfold Hash s k Hd). split; [|discriminate].
    destruct (list_eqb Byte.eqb _ _); [|discriminate].
    destruct k; cbn; discriminate.
  - unfold CBase58Data.__new__. rewrite Hd. cbn [bind].
    split; intros [= ->]; reflexivity.
Qed.

(** X12. With a hash of 32-byte output, [__new__] either returns an
    instance or raises one of [InvalidBase58Error] and
    [Base58ChecksumError]: indexing the version byte never fails, however
    short the decoded bytes. *)
Theorem new_outcomes (Hash : bytes -> bytes) (s : str) :
  (forall m, length (Hash m) = 32%nat) ->
  (exists r, CBase58Data.__new__ Hash s = Ok r)
  \/ CBase58Data.__new__ Hash s = Raise InvalidBase58Error
  \/ CBase58Data.__new__ Hash s = Raise Base58ChecksumError.
Proof.
  intros Hlen. destruct (decode_cases s) as [[_ [k Hd]]|[_ Hr]].
  - rewrite (new_unfold Hash s k Hd).
    destruct (list_eqb Byte.eqb _ _) eqn:E; [|right; right; reflexivity].
    left. apply list_eqb_bytes in E.
    pose proof (checksum_length Hash Hlen
      (firstn 1 k ++ firstn (length k - 4 - 1) (skipn 1 k))) as Hl.
    rewrite <- E, length_skipn in Hl.
    destruct k as [|v k]; [cbn in Hl; lia|].
    eexists. reflexivity.
  - right. left. unfold CBase58Data.__new__. rewrite Hr. reflexivity.
Qed.

Lemma new_outcomes_witness :
  (forall m, length (sample_digest m) = 32%nat) /\
  ((exists r, CBase58Data.__new__ sample_digest (lit "2") = Ok r)
   \/ CBase58Data.__new__ sample_digest (lit "2") = Raise InvalidBase58Error
   \/ CBase58Data.__new__ sample_digest (lit "2") = Raise Base58ChecksumError).
Proof.
  split; [intros m; reflexivity|].
  apply (new_outcomes sample_digest (lit "2")). intros m. reflexivity.
Defined.

(** X13. What [__new__] accepts is well formed: when the decoded bytes
    are at least five and an instance is returned, they are the version
    byte, then the bytes [to_bytes] gives back, then the first four bytes
    of the hash of the two; the version is in [0,255]. *)
Theorem new_sound (Hash : bytes -> bytes) (s : str) (k : bytes)
        (r : CBase58Data.t) :
  decode s = Ok k -> (5 <= length k)%nat ->
  CBase58Data.__new__ Hash s = Ok r ->
  let v := byte_of_N (Z.to_N (CBase58Data.nVersion r)) in
  (0 <= CBase58Data.nVersion r <= 255)%Z
  /\ k = v :: CBase58Data.to_bytes r
         ++ firstn 4 (Hash (v :: CBase58Data.to_bytes r)).
Proof.
  intros Hd Hk Hn.
  destruct (new_ok_envelope Hash s k r Hd Hk Hn) as (v & Hr & Hk').
  rewrite Hr. cbn [CBase58Data.nVersion CBase58Data.data CBase58Data.to_bytes app].
  assert (Hb : byte_of_N (Z.to_N (CBase58Data.bord v)) = v).
  { unfold CBase58Data.bord. rewrite N2Z.id. apply byte_of_N_of_to. }
  rewrite Hb. split; [apply bord_range|exact Hk'].
Qed.

Lemma new_sound_witness :
  decode (lit "3VXYMuyv") = Ok [x05; x01; x05; x05; x05; x05] /\
  (5 <= length [x05; x01; x05; x05; x05; x05])%nat /\
  CBase58Data.__new__ sample_digest (lit "3VXYMuyv")
  = Ok {| CBase58Data.data := [x01]; CBase58Data.nVersion := 5 |} /\
  [x05; x01; x05; x05; x05; x05]
  = x05 :: [x01] ++ firstn 4 (sample_digest (x05 :: [x01])).
Proof.
  assert (Hd : decode (lit "3VXYMuyv") = Ok [x05; x01; x05; x05; x05; x05])
    by (vm_compute; reflexivity).
  assert (Hk : (5 <= length [x05; x01; x05; x05; x05; x05])%nat)
    by (simpl; lia).
  assert (Hn : CBase58Data.__new__ sample_digest (lit "3VXYMuyv")
               = Ok {| CBase58Data.data := [x01]; CBase58Data.nVersion := 5 |})
    by (vm_compute; reflexivity).
  split; [exact Hd|]. split; [exact Hk|]. split; [exact Hn|].
  exact (proj2 (new_sound sample_digest _ _ _ Hd Hk Hn)).
Defined.

(** X14. Parsing, then converting back: when the decoded bytes are at
    least five and [__new__] returns an instance, [__str__] of that
    instance is the string that was parsed. *)
Theorem str_of_new (Hash : bytes -> bytes) (s : str) (k : bytes)
        (r : CBase58Data.t) :
  decode s = Ok k -> (5 <= length k)%nat ->
  CBase58Data.__new__ Hash s = Ok r ->
  CBase58Data.__str__ Hash r = Ok s.
Proof. apply new_str_roundtrip. Qed.

Lemma str_of_new_witness :
  decode (lit "3VXYMuyv") = Ok [x05; x01; x05; x05; x05; x05] /\
  (5 <= length [x05; x01; x05; x05; x05; x05])%nat /\
  CBase58Data.__new__ sample_digest (lit "3VXYMuyv")
  = Ok {| CBase58Data.data := [x01]; CBase58Data.nVersion := 5 |} /\
  CBase58Data.__str__ sample_digest
    {| CBase58Data.data := [x01]; CBase58Data.nVersion := 5 |}
  = Ok (lit "3VXYMuyv").
Proof.
  assert (Hd : decode (lit "3VXYMuyv") = Ok [x05; x01; x05; x05; x05; x05])
    by (vm_compute; reflexivity).
  assert (Hk : (5 <= length [x05; x01; x05; x05; x05; x05])%nat)
    by (simpl; lia).
  assert (Hn : CBase58Data.__new__ sample_digest (lit "3VXYMuyv")
               = Ok {| CBase58Data.data := [x01]; CBase58Data.nVersion := 5 |})
    by (vm_compute; reflexivity).
  split; [exact Hd|]. split; [exact Hk|]. split; [exact Hn|].
  exact (str_of_new sample_digest _ _ _ Hd Hk Hn).
Defined.

(** X15. [__str__] returns exactly on the instances whose [nVersion] is in
    [0,255], and then a string of alphabet characters; on any other
    instance (the attribute can be assigned) it raises [ValueError]. *)
Theorem str_succeeds_iff (Hash : bytes -> bytes) (r : CBase58Data.t) :
  ((exists s, CBase58Data.__str__ Hash r = Ok s
              /\ Forall (fun c => In c b58_digits) s)
   <-> (0 <= CBase58Data.nVersion r <= 255)%Z)
  /\ (CBase58Data.__str__ Hash r = Raise ValueError
      <-> ~ (0 <= CBase58Data.nVersion r <= 255)%Z).
Proof.
  destruct (str_cases Hash r) as [[Hv Hs]|[Hv Hs]]; rewrite Hs.
  - destruct (encode_ok_alphabet
                (byte_of_N (Z.to_N (CBase58Data.nVersion r))
                 :: CBase58Data.data r
                 ++ firstn 4 (Hash (byte_of_N (Z.to_N (CBase58Data.nVersion r))
                                    :: CBase58Data.data r))))
      as (s & He & Hall).
    rewrite He. split.
    + split; [intros _; exact Hv|intros _; exists s; auto].
    + split; [discriminate|contradiction].
  - split.
    + split; [intros (s & Hc & _); discriminate|contradiction].
    + tauto.
Qed.

(** X16. With a hash of 32-byte output, [__str__] is injective: two
    instances with the same string have the same version and the same
    payload. *)
Theorem str_injective (Hash : bytes -> bytes) (r1 r2 : CBase58Data.t)
        (s : str) :
  (forall m, length (Hash m) = 32%nat) ->
  CBase58Data.__str__ Hash r1 = Ok s ->
  CBase58Data.__str__ Hash r2 = Ok s ->
  r1 = r2.
Proof.
  intros Hlen H1 H2.
  destruct (str_cases Hash r1) as [[Hv1 Hs1]|[_ Hs1]];
    [|rewrite Hs1 in H1; discriminate].
  destruct (str_cases Hash r2) as [[Hv2 Hs2]|[_ Hs2]];
    [|rewrite Hs2 in H2; discriminate].
  rewrite Hs1 in H1. rewrite Hs2 in H2. rewrite <- H2 in H1.
  apply encode_injective_bytes in H1.
  destruct r1 as [p1 v1], r2 as [p2 v2].
  cbn [CBase58Data.nVersion CBase58Data.data] in *.
  injection H1 as Hb Hp.
  apply app_inj_length in Hp;
    [|exact (eq_trans (checksum_length Hash Hlen _)
                      (eq_sym (checksum_length Hash Hlen _)))].
  destruct Hp as [-> _]. f_equal.
  destruct (bord_bchr v1 Hv1) as [_ <-]. destruct (bord_bchr v2 Hv2) as [_ <-].
  rewrite Hb. reflexivity.
Qed.

Lemma str_injective_witness :
  (forall m, length (sample_digest m) = 32%nat) /\
  CBase58Data.__str__ sample_digest
    {| CBase58Data.data := [x01]; CBase58Data.nVersion := 5 |}
  = Ok (lit "3VXYMuyv") /\
  {| CBase58Data.data := [x01]; CBase58Data.nVersion := 5 |}
  = {| CBase58Data.data := [x01]; CBase58Data.nVersion := 5 |}.
Proof.
  assert (Hl : forall m, length (sample_digest m) = 32%nat)
    by (intros m; reflexivity).
  assert (Hs : CBase58Data.__str__ sample_digest
                 {| CBase58Data.data := [x01]; CBase58Data.nVersion := 5 |}
               = Ok (lit "3VXYMuyv")) by (vm_compute; reflexivity).
  split; [exact Hl|]. split; [exact Hs|].
  exact (str_injective sample_digest _ _ _ Hl Hs Hs).
Defined.

(** X17. [__repr__] shows the class name and the encoded string between
    single quotes, character for character, without any escape; it
    raises when [__str__] does. *)
Theorem repr_shows_str (Hash : bytes -> bytes) (r : CBase58Data.t) :
  CBase58Data.__repr__ Hash r
  = (s <- CBase58Data.__str__ Hash r ;;
     Ok (lit "CBase58Data('" ++ s ++ lit "')")).
Proof.
  unfold CBase58Data.__repr__.
  destruct (str_cases Hash r) as [[_ Hs]|[_ Hs]]; rewrite Hs;
    [|reflexivity].
  destruct (encode_ok_alphabet
              (byte_of_N (Z.to_N (CBase58Data.nVersion r))
               :: CBase58Data.data r
               ++ firstn 4 (Hash (byte_of_N (Z.to_N (CBase58Data.nVersion r))
                                  :: CBase58Data.data r))))
    as (s & He & Hall).
  rewrite He. cbn [bind]. rewrite (repr_str_alphabet s Hall).
  f_equal. cbn. rewrite <- app_assoc. reflexivity.
Qed.

(** X18. Every instance [__new__] returns has its version in [0,255], so
    [__str__] does not raise on it. *)
Theorem new_then_str (Hash : bytes -> bytes) (s : str) (r : CBase58Data.t) :
  CBase58Data.__new__ Hash s = Ok r ->
  (0 <= CBase58Data.nVersion r <= 255)%Z
  /\ exists s', CBase58Data.__str__ Hash r = Ok s'.
Proof.
  intros Hn. pose proof (new_version_range Hash s r Hn) as Hv.
  split; [exact Hv|].
  destruct (str_cases Hash r) as [[_ Hs]|[Hv' _]]; [|contradiction].
  rewrite Hs.
  destruct (decode_encode_bytes
              (byte_of_N (Z.to_N (CBase58Data.nVersion r))
               :: CBase58Data.data r
               ++ firstn 4 (Hash (byte_of_N (Z.to_N (CBase58Data.nVersion r))
                                  :: CBase58Data.data r))))
    as (s' & He & _).
  exists s'. exact He.
Qed.

Lemma new_then_str_witness :
  CBase58Data.__new__ sample_digest (lit "3VXYMuyv")
  = Ok {| CBase58Data.data := [x01]; CBase58Data.nVersion := 5 |} /\
  (0 <= 5 <= 255)%Z /\
  exists s', CBase58Data.__str__ sample_digest
               {| CBase58Data.data := [x01]; CBase58Data.nVersion := 5 |}
             = Ok s'.
Proof.
  assert (Hn : CBase58Data.__new__ sample_digest (lit "3VXYMuyv")
               = Ok {| CBase58Data.data := [x01]; CBase58Data.nVersion := 5 |})
    by (vm_compute; reflexivity).
  split; [exact Hn|]. exact (new_then_str sample_digest _ _ Hn).
Defined.

(** X19. The four-byte edge: when the decoded bytes are exactly four and
    [__new__] still returns an instance, its payload is empty and its
    [__str__] is another string, which decodes to five bytes: the first
    byte, counted as version and as part of the checksum, is written
    twice. *)
Theorem new_four_bytes (Hash : bytes -> bytes) (s : str) (k : bytes)
        (r : CBase58Data.t) :
  decode s = Ok k -> length k = 4%nat ->
  CBase58Data.__new__ Hash s = Ok r ->
  CBase58Data.to_bytes r = []
  /\ exists s',
       CBase58Data.__str__ Hash r = Ok s'
       /\ decode s' = Ok (hd x00 k :: k)
       /\ s' <> s.
Proof.
  intros Hd Hk Hn.
  rewrite (new_of_short Hash s k Hd) in Hn by lia.
  destruct (list_eqb Byte.eqb k (firstn 4 (Hash (firstn 1 k)))) eqn:E;
    [|discriminate].
  apply list_eqb_bytes in E.
  destruct k as [|v k]; [discriminate|].
  change (firstn 1 (v :: k)) with [v] in Hn, E.
  cbn [getitem nth_error bind] in Hn. injection Hn as <-.
  split; [reflexivity|].
  rewrite str_spec. cbn [app hd]. rewrite <- E.
  destruct (decode_encode_bytes (v :: v :: k)) as (s' & He & Hd').
  exists s'. split; [exact He|]. split; [exact Hd'|].
  intros ->. rewrite Hd in Hd'. injection Hd' as Hk'.
  apply (f_equal (@length byte)) in Hk'. cbn in Hk'. lia.
Qed.

Lemma new_four_bytes_witness :
  decode (lit "2VKqi") = Ok [x01; x01; x01; x01] /\
  length [x01; x01; x01; x01] = 4%nat /\
  CBase58Data.__new__ sample_digest (lit "2VKqi")
  = Ok {| CBase58Data.data := []; CBase58Data.nVersion := 1 |} /\
  exists s',
    CBase58Data.__str__ sample_digest
      {| CBase58Data.data := []; CBase58Data.nVersion := 1 |} = Ok s'
    /\ decode s' = Ok (x01 :: [x01; x01; x01; x01])
    /\ s' <> lit "2VKqi".
Proof.
  assert (Hd : decode (lit "2VKqi") = Ok [x01; x01; x01; x01])
    by (vm_compute; reflexivity).
  assert (Hk : length [x01; x01; x01; x01] = 4%nat) by reflexivity.
  assert (Hn : CBase58Data.__new__ sample_digest (lit "2VKqi")
               = Ok {| CBase58Data.data := []; CBase58Data.nVersion := 1 |})
    by (vm_compute; reflexivity).
  split; [exact Hd|]. split; [exact Hk|]. split; [exact Hn|].
  exact (proj2 (new_four_bytes sample_digest _ _ _ Hd Hk Hn)).
Defined.

(** X20. No instance has two spellings of normal length: two strings
    that both decode to at least five bytes and are parsed to the same
    instance are the same string. *)
Theorem new_injective (Hash : bytes -> bytes) (s1 s2 : str) (k1 k2 : bytes)
        (r : CBase58Data.t) :
  decode s1 = Ok k1 -> (5 <= length k1)%nat ->
  decode s2 = Ok k2 -> (5 <= length k2)%nat ->
  CBase58Data.__new__ Hash s1 = Ok r ->
  CBase58Data.__new__ Hash s2 = Ok r ->
  s1 = s2.
Proof.
  intros Hd1 Hk1 Hd2 Hk2 Hn1 Hn2.
  pose proof (new_str_roundtrip Hash s1 k1 r Hd1 Hk1 Hn1) as H1.
  pose proof (new_str_roundtrip Hash s2 k2 r Hd2 Hk2 Hn2) as H2.
  congruence.
Qed.

Lemma new_injective_witness :
  decode (lit "3VXYMuyv") = Ok [x05; x01; x05; x05; x05; x05] /\
  (5 <= length [x05; x01; x05; x05; x05; x05])%nat /\
  CBase58Data.__new__ sample_digest (lit "3VXYMuyv")
  = Ok {| CBase58Data.data := [x01]; CBase58Data.nVersion := 5 |} /\
  lit "3VXYMuyv" = lit "3VXYMuyv".
Proof.
  assert (Hd : decode (lit "3VXYMuyv") = Ok [x05; x01; x05; x05; x05; x05])
    by (vm_compute; reflexivity).
  assert (Hk : (5 <= length [x05; x01; x05; x05; x05; x05])%nat)
    by (simpl; lia).
  assert (Hn : CBase58Data.__new__ sample_digest (lit "3VXYMuyv")
               = Ok {| CBase58Data.data := [x01]; CBase58Data.nVersion := 5 |})
    by (vm_compute; reflexivity).
  split; [exact Hd|]. split; [exact Hk|]. split; [exact Hn|].
  exact (new_injective sample_digest _ _ _ _ _ Hd Hk Hd Hk Hn Hn).
Defined.
